(** * md-to-pdf: the Markdown to PDF conversion pipeline

    A shallow embedding of [skills/parse-md-to-pdf/scripts/md-to-pdf.mjs]:
    [markdownToHtml] with its [highlight] callback and its placeholder
    reinjection loop, [escapeHtml], [buildHtmlDocument] and [generatePdf].

    JavaScript strings are sequences of UTF-16 code units, here [list N].
    The regular expressions of the script are run by a small backtracking
    matcher, and [String.prototype.replace] is modelled with the substitution
    patterns of its replacement string.  The libraries the script imports
    (marked, marked-highlight, highlight.js, puppeteer) stay behind
    interfaces: a class for the string-level ones, a trace of calls and a
    world that answers them for the browser. *)

From Stdlib Require Import Ascii String Decimal DecimalNat DecimalString.
From Stdlib Require Import List NArith PeanoNat Lia Bool FinFun.
Import ListNotations.

Set Implicit Arguments.
Local Open Scope list_scope.

(* ================================================================== *)
(** * Part I: definitions *)
(* ================================================================== *)

(** ** JavaScript strings *)

Definition jsstring := list N.

(** A literal of the script, as code units. *)
Definition js (s : string) : jsstring :=
  map N_of_ascii (list_ascii_of_string s).
Arguments js s%_string.

Definition amp : N := 38.        (* & *)
Definition lt : N := 60.         (* < *)
Definition gt : N := 62.         (* > *)
Definition quot : N := 34.       (* double quote *)
Definition apos : N := 39.       (* single quote *)
Definition dollar : N := 36.     (* $ *)
Definition backtick : N := 96.
Definition backslash : N := 92.
Definition bang : N := 33.       (* ! *)
Definition star : N := 42.       (* * *)
Definition nl : jsstring := [10%N].
Definition q : jsstring := [quot].

(** [s === t] and [s !== t] on strings. *)
Fixpoint streq (s t : jsstring) : bool :=
  match s, t with
  | [], [] => true
  | c :: s', d :: t' => N.eqb c d && streq s' t'
  | _, _ => false
  end.

(** Truthiness of a string: non-empty. *)
Definition truthy (s : jsstring) : bool :=
  match s with [] => false | _ => true end.

(** The class [\s] of a RegExp without the [u] flag: WhiteSpace and
    LineTerminator code units. *)
Definition isSpace (c : N) : bool :=
  ((9 <=? c) && (c <=? 13) || (c =? 32) || (c =? 160) || (c =? 5760)
   || (8192 <=? c) && (c <=? 8202) || (c =? 8232) || (c =? 8233)
   || (c =? 8239) || (c =? 8287) || (c =? 12288) || (c =? 65279))%N.

(** [String(n)] for an array index. *)
Definition decimal (n : nat) : jsstring :=
  js (NilEmpty.string_of_uint (Nat.to_uint n)).

(** ** Occurrences of one string in another *)

Fixpoint prefixb (p s : jsstring) : bool :=
  match p, s with
  | [], _ => true
  | c :: p', d :: s' => N.eqb c d && prefixb p' s'
  | _ :: _, [] => false
  end.

(** Number of positions of [s] at which [p] starts. *)
Fixpoint count (p s : jsstring) : nat :=
  (if prefixb p s then 1 else 0) +
  match s with
  | [] => 0
  | _ :: s' => count p s'
  end.

Definition includes (s p : jsstring) : bool := negb (count p s =? 0).

(** Number of positions of [x] at which [p] starts when [y] follows [x]. *)
Fixpoint startsIn (p x y : jsstring) : nat :=
  match x with
  | [] => 0
  | c :: x' => (if prefixb p (x ++ y) then 1 else 0) + startsIn p x' y
  end.

(** ** Regular expressions

    The fragment of RegExp syntax the script uses: literal characters, the
    class [\s], identity escapes [\c], a negated class of one character
    [[^c]], a set of characters, and the greedy postfix [*]. *)

Inductive atom :=
| Char (c : N)
| NotChar (c : N)
| Space
| OneOf (l : list N).

Inductive piece :=
| One (a : atom)
| Many (a : atom).

Definition regexp := list piece.

Definition accepts (a : atom) (c : N) : bool :=
  match a with
  | Char d => N.eqb d c
  | NotChar d => negb (N.eqb d c)
  | Space => isSpace c
  | OneOf l => existsb (N.eqb c) l
  end.

(** Backtracking match of [re] at the head of [s]: the number of code units
    of the match.  [Many a] is greedy: it takes one more character first and
    gives it back when the rest of the pattern fails. *)
Fixpoint matchHere (re : regexp) (s : jsstring) : option nat :=
  match re with
  | [] => Some 0
  | One a :: re' =>
      match s with
      | c :: s' => if accepts a c then option_map S (matchHere re' s') else None
      | [] => None
      end
  | Many a :: re' =>
      (fix many (s : jsstring) : option nat :=
         match s with
         | c :: s' =>
             if accepts a c then
               match many s' with
               | Some n => Some (S n)
               | None => matchHere re' s
               end
             else matchHere re' s
         | [] => matchHere re' []
         end) s
  end.

(** [new RegExp(source)]: one atom at the head of the source, with the
    number of further code units it spans. *)
Definition readAtom (c : N) (rest : jsstring) : atom * nat :=
  if N.eqb c backslash then
    match rest with
    | d :: _ => (if N.eqb d 115 then Space else Char d, 1)
    | [] => (Char c, 0)
    end
  else if N.eqb c 91 then
    match rest with
    | h :: x :: r :: _ =>
        if N.eqb h 94 && N.eqb r 93 then (NotChar x, 3) else (Char c, 0)
    | _ => (Char c, 0)
    end
  else (Char c, 0).

(** The pieces of the source, atom by atom; [skip] code units of [src] still
    belong to the atom just read. *)
Fixpoint compileFrom (skip : nat) (src : jsstring) : regexp :=
  match src with
  | [] => []
  | c :: rest =>
      match skip with
      | S k => compileFrom k rest
      | 0 =>
          let (a, n) := readAtom c rest in
          match nth_error rest n with
          | Some d =>
              if N.eqb d star then Many a :: compileFrom (S n) rest
              else One a :: compileFrom n rest
          | None => One a :: compileFrom n rest
          end
      end
  end.

Definition compile (src : jsstring) : regexp := compileFrom 0 src.

(** The next character of the source is not the postfix [*]. *)
Definition unstarred (src : jsstring) : Prop :=
  match src with
  | d :: _ => N.eqb d star = false
  | [] => True
  end.

(** The class stops where the next character is not in it. *)
Definition stops (a : atom) (s : jsstring) : Prop :=
  match s with
  | c :: _ => accepts a c = false
  | [] => True
  end.

(** ** String.prototype.replace with a global RegExp *)

(** GetSubstitution for a pattern without capture groups: [$$], [$&],
    [$`] and [$'] are expanded, every other [$] stands for itself. *)
Fixpoint getSubstitution (matched str : jsstring) (position : nat)
    (replacement : jsstring) : jsstring :=
  match replacement with
  | [] => []
  | c :: r =>
      if N.eqb c dollar then
        match r with
        | d :: r' =>
            if N.eqb d dollar then dollar :: getSubstitution matched str position r'
            else if N.eqb d amp then matched ++ getSubstitution matched str position r'
            else if N.eqb d backtick then
              firstn position str ++ getSubstitution matched str position r'
            else if N.eqb d apos then
              skipn (position + length matched) str
                ++ getSubstitution matched str position r'
            else c :: getSubstitution matched str position r
        | [] => [c]
        end
      else c :: getSubstitution matched str position r
  end.

(** The replacement has a [$] that starts one of the four patterns. *)
Fixpoint substitutes (replacement : jsstring) : bool :=
  match replacement with
  | [] => false
  | c :: r =>
      N.eqb c dollar
      && match r with
         | d :: _ => N.eqb d dollar || N.eqb d amp || N.eqb d backtick || N.eqb d apos
         | [] => false
         end
      || substitutes r
  end.

(** The scan of [str.replace(re, replacement)] from [position] on: [rest] is
    what is left of [str], [skip] the code units of it that belong to the
    match just replaced.  An empty match is replaced too and the scan moves
    on by one code unit. *)
Fixpoint replaceFrom (re : regexp) (replacement str : jsstring)
    (position skip : nat) (rest : jsstring) : jsstring :=
  match rest with
  | [] =>
      match skip, matchHere re [] with
      | 0, Some _ => getSubstitution [] str position replacement
      | _, _ => []
      end
  | c :: rest' =>
      match skip with
      | S k => replaceFrom re replacement str (S position) k rest'
      | 0 =>
          match matchHere re rest with
          | Some (S n) =>
              getSubstitution (firstn (S n) rest) str position replacement
                ++ replaceFrom re replacement str (S position) n rest'
          | Some 0 =>
              getSubstitution [] str position replacement
                ++ c :: replaceFrom re replacement str (S position) 0 rest'
          | None => c :: replaceFrom re replacement str (S position) 0 rest'
          end
      end
  end.

Definition replaceAll (re : regexp) (replacement str : jsstring) : jsstring :=
  replaceFrom re replacement str 0 0 str.

(** ** escapeHtml (lines 102-108) *)

Definition escapeHtml (text : jsstring) : jsstring :=
  replaceAll [One (Char quot)] (js "&quot;")
    (replaceAll [One (Char gt)] (js "&gt;")
       (replaceAll [One (Char lt)] (js "&lt;")
          (replaceAll [One (Char amp)] (js "&amp;") text))).

(** What one code unit becomes after the four passes. *)
Definition escapeChar (c : N) : jsstring :=
  if N.eqb c amp then js "&amp;"
  else if N.eqb c lt then js "&lt;"
  else if N.eqb c gt then js "&gt;"
  else if N.eqb c quot then js "&quot;"
  else [c].

(** An inverse of [escapeHtml]: the four entities are read back, every other
    code unit is kept. *)
Definition entityAt (s : jsstring) : option (N * nat) :=
  if prefixb (js "&amp;") s then Some (amp, 4)
  else if prefixb (js "&lt;") s then Some (lt, 3)
  else if prefixb (js "&gt;") s then Some (gt, 3)
  else if prefixb (js "&quot;") s then Some (quot, 5)
  else None.

Fixpoint unescapeFrom (skip : nat) (s : jsstring) : jsstring :=
  match s with
  | [] => []
  | c :: s' =>
      match skip with
      | S k => unescapeFrom k s'
      | 0 =>
          match entityAt s with
          | Some (d, n) => d :: unescapeFrom n s'
          | None => c :: unescapeFrom 0 s'
          end
      end
  end.

Definition unescapeHtml (s : jsstring) : jsstring := unescapeFrom 0 s.

(** ** The placeholder and its wrapper pattern (lines 64, 88-95) *)

Definition placeholder (i : nat) : jsstring :=
  js "<!--MERMAID_PLACEHOLDER_" ++ decimal i ++ js "-->".

(** [/[-/\\^$*+?.()|[\]{}]/g], the characters that line 92 escapes. *)
Definition regexpSpecials : list N :=
  js "-/\^$*+?.()|[]{}".

(** [placeholder.replace(/[-/\\^$*+?.()|[\]{}]/g, "\\$&")]. *)
Definition escapeRegExp (s : jsstring) : jsstring :=
  replaceAll [One (OneOf regexpSpecials)] (js "\$&") s.

(** What line 92 makes of one code unit. *)
Definition escapeRegExpChar (c : N) : jsstring :=
  if accepts (OneOf regexpSpecials) c then [backslash; c] else [c].

(** The pattern that matches the string [s] and nothing else. *)
Definition literally (s : jsstring) : regexp := map (fun c => One (Char c)) s.

(** The code block markup the pattern looks for around a placeholder. *)
Definition openTag : jsstring := js "<pre><code".
Definition closeTag : jsstring := js "</code></pre>".

Definition wrappedPattern (i : nat) : regexp :=
  compile (js "<pre><code[^>]*>\s*" ++ escapeRegExp (placeholder i)
             ++ js "\s*</code></pre>").

Definition mermaidDiv (code : jsstring) : jsstring :=
  js "<div class=" ++ q ++ js "mermaid-container" ++ q ++ js "><div class="
    ++ q ++ js "mermaid" ++ q ++ js ">" ++ escapeHtml code ++ js "</div></div>".

(** The two constant parts of [mermaidDiv], and the opening tag of the
    container element. *)
Definition containerOpen : jsstring :=
  js "<div class=" ++ q ++ js "mermaid-container" ++ q ++ js ">".

Definition divOpen : jsstring :=
  containerOpen ++ js "<div class=" ++ q ++ js "mermaid" ++ q ++ js ">".

Definition divClose : jsstring := js "</div></div>".

(** [re.test(s)] for a pattern without flags: there is a match somewhere. *)
Fixpoint test (re : regexp) (s : jsstring) : bool :=
  match matchHere re s with
  | Some _ => true
  | None =>
      match s with
      | [] => false
      | _ :: s' => test re s'
      end
  end.

(** ** The libraries behind markdownToHtml

    highlight.js and the code renderer that marked-highlight installs are not
    part of the script; the script only calls them. *)

Class Libraries := {
  (** [hljs.getLanguage(name)] is truthy. *)
  hljs_getLanguage : jsstring -> bool;
  (** [hljs.highlight(code, {language}).value] for a registered language. *)
  hljs_highlight_value : jsstring -> jsstring -> jsstring;
  (** [hljs.highlightAuto(code).value]. *)
  hljs_highlightAuto_value : jsstring -> jsstring;
  (** The renderer of a code token: text, info string, escaped flag. *)
  marked_code : jsstring -> jsstring -> bool -> jsstring
}.

(** A token of marked, as far as the script can tell them apart: a code token
    (fenced or indented; an absent info string is [[]], which [lang || '']
    makes of it), or anything else, given by the HTML marked renders for it.
    The children of a container token are listed in document order between
    the markup of their parent, the order in which marked walks and renders
    them. *)
Inductive token :=
| CodeToken (lang text : jsstring) (escaped : bool)
| OtherToken (rendered : jsstring).

(** A DiagramBlock, [{ index, code }] (line 65). *)
Record block := { index : nat; code : jsstring }.

(** The two variables the [highlight] closure captures (lines 55-56). *)
Record extraction := { mermaidBlocks : list block; mermaidIndex : nat }.

(** State and exceptions of the parse: a computation reads and updates the
    captured variables, or throws. *)
Definition Extract (A : Type) : Type := extraction -> option (A * extraction).

Definition ret {A} (a : A) : Extract A := fun st => Some (a, st).

Definition bind {A B} (m : Extract A) (f : A -> Extract B) : Extract B :=
  fun st =>
    match m st with
    | Some (a, st') => f a st'
    | None => None
    end.

Notation "x <- m ;; k" := (bind m (fun x => k))
  (at level 61, m at next level, right associativity).
Notation "m ;; k" := (bind m (fun _ => k))
  (at level 61, right associativity).

Definition getIndex : Extract nat := fun st => Some (mermaidIndex st, st).

Definition push (b : block) : Extract unit :=
  fun st => Some (tt, {| mermaidBlocks := mermaidBlocks st ++ [b];
                         mermaidIndex := mermaidIndex st |}).

Definition increment : Extract unit :=
  fun st => Some (tt, {| mermaidBlocks := mermaidBlocks st;
                         mermaidIndex := S (mermaidIndex st) |}).

Definition orThrow {A} (o : option A) : Extract A :=
  fun st => match o with Some a => Some (a, st) | None => None end.

Definition initial : extraction := {| mermaidBlocks := []; mermaidIndex := 0 |}.

(** [getLang] of marked-highlight: [(lang || '').match(/\S*/)[0]]. *)
Fixpoint getLang (lang : jsstring) : jsstring :=
  match lang with
  | [] => []
  | c :: r => if isSpace c then [] else c :: getLang r
  end.

Definition isMermaid (t : token) : bool :=
  match t with
  | CodeToken lang _ _ => streq (getLang lang) (js "mermaid")
  | OtherToken _ => false
  end.

(** The fence contents of the diagram fences, in document order. *)
Fixpoint mermaidSources (ts : list token) : list jsstring :=
  match ts with
  | [] => []
  | CodeToken lang text esc :: ts' =>
      if isMermaid (CodeToken lang text esc) then text :: mermaidSources ts'
      else mermaidSources ts'
  | OtherToken _ :: ts' => mermaidSources ts'
  end.

Section Pipeline.

Context {L : Libraries}.

(** [hljs.highlight] throws on a language that is not registered. *)
Definition hljs_highlight (code lang : jsstring) : option jsstring :=
  if hljs_getLanguage lang then Some (hljs_highlight_value code lang) else None.

(** The [highlight] callback (lines 61-74). *)
Definition highlight (code lang : jsstring) : Extract jsstring :=
  if streq lang (js "mermaid") then
    i <- getIndex ;;
    push {| index := i; code := code |} ;;
    increment ;;
    ret (placeholder i)
  else if truthy lang && hljs_getLanguage lang then
    orThrow (hljs_highlight code lang)
  else ret (hljs_highlightAuto_value code).

(** [updateToken] of marked-highlight: a result that differs from the text
    replaces it and marks the token as escaped. *)
Definition updateToken (lang text : jsstring) (escaped : bool)
    (out : jsstring) : token :=
  if negb (streq out text) then CodeToken lang out true
  else CodeToken lang text escaped.

(** The [walkTokens] hook of marked-highlight on one token. *)
Definition walkToken (t : token) : Extract token :=
  match t with
  | CodeToken lang text escaped =>
      out <- highlight text (getLang lang) ;;
      ret (updateToken lang text escaped out)
  | OtherToken _ => ret t
  end.

Fixpoint walkTokens (ts : list token) : Extract (list token) :=
  match ts with
  | [] => ret []
  | t :: ts' =>
      t' <- walkToken t ;;
      ts'' <- walkTokens ts' ;;
      ret (t' :: ts'')
  end.

Definition renderToken (t : token) : jsstring :=
  match t with
  | CodeToken lang text escaped => marked_code text lang escaped
  | OtherToken rendered => rendered
  end.

Definition parser (ts : list token) : jsstring := concat (map renderToken ts).

(** [marked.parse] on the tokens of the document (line 83). *)
Definition parse (ts : list token) : Extract jsstring :=
  ts' <- walkTokens ts ;;
  ret (parser ts').

(** One turn of the loop of lines 87-97. *)
Definition reinject (html : jsstring) (b : block) : jsstring :=
  replaceAll (wrappedPattern (index b)) (mermaidDiv (code b)) html.

Record converted := { html : jsstring; hasMermaid : bool }.

(** [markdownToHtml] (lines 53-100), from the tokens marked's lexer makes of
    [markdownContent]. *)
Definition markdownToHtml (tokens : list token) : option converted :=
  match parse tokens initial with
  | Some (html0, st) =>
      Some {| html := fold_left reinject (mermaidBlocks st) html0;
              hasMermaid := 0 <? length (mermaidBlocks st) |}
  | None => None
  end.

(** The HTML in which the [i]-th diagram token of [ts] is rendered as the
    container of the [i]-th source of [sources], every other token as marked
    renders it. *)
Fixpoint withContainers (ts : list token) (sources : list jsstring) : jsstring :=
  match ts with
  | [] => []
  | t :: ts' =>
      if isMermaid t then
        match sources with
        | src :: sources' => mermaidDiv src ++ withContainers ts' sources'
        | [] => renderToken t ++ withContainers ts' []
        end
      else renderToken t ++ withContainers ts' sources
  end.

(** The code blocks marked renders for the diagram tokens. *)
Definition wrappers (ts : list token) : list jsstring :=
  map renderToken (filter isMermaid ts).

(** The blocks [{ index: i, code }], [{ index: i + 1, code }], ... of a list
    of sources. *)
Fixpoint numberedFrom (i : nat) (sources : list jsstring) : list block :=
  match sources with
  | [] => []
  | src :: sources' => {| index := i; code := src |} :: numberedFrom (S i) sources'
  end.

(** What the callback returns for a code token that is not a diagram. *)
Definition highlighted (text lang : jsstring) : jsstring :=
  if truthy lang && hljs_getLanguage lang then hljs_highlight_value text lang
  else hljs_highlightAuto_value text.

(** The tokens after the walk, when the next diagram index is [i]. *)
Fixpoint walked (i : nat) (ts : list token) : list token :=
  match ts with
  | [] => []
  | CodeToken lang text escaped :: ts' =>
      if isMermaid (CodeToken lang text escaped) then
        updateToken lang text escaped (placeholder i) :: walked (S i) ts'
      else
        updateToken lang text escaped (highlighted text (getLang lang)) :: walked i ts'
  | OtherToken rendered :: ts' => OtherToken rendered :: walked i ts'
  end.

(** The HTML between two turns of the loop: the first [j] diagram tokens are
    containers already, the others still code blocks. *)
Fixpoint mixed (j : nat) (ts : list token) (sources : list jsstring) : jsstring :=
  match ts with
  | [] => []
  | t :: ts' =>
      if isMermaid t then
        match j, sources with
        | S j', src :: sources' => mermaidDiv src ++ mixed j' ts' sources'
        | _, _ => renderToken t ++ mixed 0 ts' (tl sources)
        end
      else renderToken t ++ mixed j ts' sources
  end.

End Pipeline.

(** ** buildHtmlDocument (lines 113-133) *)

Definition bootstrap : jsstring :=
  js "<script src=" ++ q
    ++ js "https://cdn.jsdelivr.net/npm/mermaid@11/dist/mermaid.min.js" ++ q
    ++ js "></script>" ++ nl
    ++ js "       <script>" ++ nl
    ++ js "         mermaid.initialize({ startOnLoad: true, theme: 'default' });" ++ nl
    ++ js "       </script>".

Definition mermaidScript (hasMermaid : bool) : jsstring :=
  if hasMermaid then bootstrap else [].

Definition documentHead : jsstring :=
  js "<!DOCTYPE html>" ++ nl
    ++ js "<html lang=" ++ q ++ js "en" ++ q ++ js ">" ++ nl
    ++ js "<head>" ++ nl
    ++ js "  <meta charset=" ++ q ++ js "UTF-8" ++ q ++ js ">" ++ nl
    ++ js "  <meta name=" ++ q ++ js "viewport" ++ q ++ js " content=" ++ q
    ++ js "width=device-width, initial-scale=1.0" ++ q ++ js ">" ++ nl
    ++ js "  <style>".

Definition buildHtmlDocument (bodyHtml cssContent : jsstring)
    (hasMermaid : bool) : jsstring :=
  documentHead ++ cssContent ++ js "</style>" ++ nl
    ++ js "  " ++ mermaidScript hasMermaid ++ nl
    ++ js "</head>" ++ nl
    ++ js "<body>" ++ nl
    ++ js "  <article>" ++ bodyHtml ++ js "</article>" ++ nl
    ++ js "</body>" ++ nl
    ++ js "</html>".

(** The opening of a script element, and the two parts of the document
    shell that follow the style sheet: up to the body, and after it. *)
Definition scriptTag : jsstring := js "<script".

Definition documentMiddle (hasMermaid : bool) : jsstring :=
  js "</style>" ++ nl
    ++ js "  " ++ mermaidScript hasMermaid ++ nl
    ++ js "</head>" ++ nl
    ++ js "<body>" ++ nl
    ++ js "  <article>".

Definition documentTail : jsstring :=
  js "</article>" ++ nl ++ js "</body>" ++ nl ++ js "</html>".

(** ** generatePdf (lines 138-181) *)

Record margins := { top : string; right : string; bottom : string; left : string }.

Record pdfOptions := {
  path : jsstring;
  format : string;
  margin : margins;
  printBackground : bool;
  preferCSSPageSize : bool
}.

(** The calls [generatePdf] makes on puppeteer, the browser and the page. *)
Inductive call :=
| Launch (headless : bool) (args : list string)
| NewPage
| SetContent (html : jsstring) (waitUntil : string)
| WaitForFunction (timeout : N)
| SetTimeout (ms : N)
| Pdf (options : pdfOptions)
| Close.

Inductive exn :=
| TimeoutError
| Failure (message : string).

(** The browser side: whether a call rejects, given the calls made so far. *)
Definition world := list call -> call -> option exn.

(** An awaited computation: it extends the trace of calls and either returns
    or throws. *)
Definition Async (A : Type) : Type := world -> list call -> list call * (exn + A).

Definition done {A} (a : A) : Async A := fun _ tr => (tr, inr a).

Definition await {A B} (m : Async A) (f : A -> Async B) : Async B :=
  fun w tr =>
    match m w tr with
    | (tr', inr a) => f a w tr'
    | (tr', inl e) => (tr', inl e)
    end.

Notation "m >> k" := (await m (fun _ => k))
  (at level 62, right associativity).

(** A call that the browser may reject. *)
Definition perform (c : call) : Async unit :=
  fun w tr =>
    match w tr c with
    | Some e => (tr ++ [c], inl e)
    | None => (tr ++ [c], inr tt)
    end.

(** [await new Promise((r) => setTimeout(r, ms))] always resolves. *)
Definition sleep (ms : N) : Async unit :=
  fun _ tr => (tr ++ [SetTimeout ms], inr tt).

Definition exportOptions (outputPath : jsstring) : pdfOptions :=
  {| path := outputPath;
     format := "A4";
     margin := {| top := "20mm"; right := "15mm"; bottom := "20mm"; left := "15mm" |};
     printBackground := true;
     preferCSSPageSize := false |}.

Definition generatePdf (htmlContent outputPath : jsstring) (hasMermaid : bool)
    : Async jsstring :=
  perform (Launch true ["--no-sandbox"; "--disable-setuid-sandbox"]%string) >>
  perform NewPage >>
  perform (SetContent htmlContent "networkidle0") >>
  (if hasMermaid then
     perform (WaitForFunction 30000) >>
     sleep 500%N
   else done tt) >>
  perform (Pdf (exportOptions outputPath)) >>
  perform Close >>
  done outputPath.

Definition run {A} (m : Async A) (w : world) : list call * (exn + A) := m w [].

(** The calls of one run, by name. *)
Definition launchCall : call :=
  Launch true ["--no-sandbox"; "--disable-setuid-sandbox"]%string.

Definition loadCall (htmlContent : jsstring) : call :=
  SetContent htmlContent "networkidle0".

Definition isClose (c : call) : bool :=
  match c with Close => true | _ => false end.

Definition isLaunch (c : call) : bool :=
  match c with Launch _ _ => true | _ => false end.

Definition isWait (c : call) : bool :=
  match c with WaitForFunction _ => true | _ => false end.

Definition isDelay (c : call) : bool :=
  match c with SetTimeout _ => true | _ => false end.

Definition calls (p : call -> bool) (tr : list call) : nat :=
  length (filter p tr).

(** A browser in which every call resolves, and one in which the diagrams
    never report completion. *)
Definition cooperative : world := fun _ _ => None.

Definition neverRendered : world :=
  fun _ c => match c with WaitForFunction _ => Some TimeoutError | _ => None end.

(** Lines 226-237 of [main]: the three stages in a row. *)
Definition convert {L : Libraries} (tokens : list token)
    (cssContent outputPath : jsstring) : Async jsstring :=
  match markdownToHtml tokens with
  | Some r =>
      generatePdf (buildHtmlDocument (html r) cssContent (hasMermaid r))
        outputPath (hasMermaid r)
  | None => fun _ tr => (tr, inl (Failure "highlight"))
  end.

(** ** A reference instance of the libraries

    marked-highlight's code renderer with the options of line 60, over a
    highlight.js in which no grammar is registered.  The examples below run
    on it; the theorems hold for every instance. *)

Definition isDigit (c : N) : bool := ((48 <=? c) && (c <=? 57))%N.

Definition isHexDigit (c : N) : bool :=
  (isDigit c || (65 <=? c) && (c <=? 70) || (97 <=? c) && (c <=? 102))%N.

Definition isWord (c : N) : bool :=
  (isDigit c || (65 <=? c) && (c <=? 90) || (97 <=? c) && (c <=? 122) || (c =? 95))%N.

Fixpoint span (p : N -> bool) (s : jsstring) : nat :=
  match s with
  | c :: s' => if p c then S (span p s') else 0
  | [] => 0
  end.

Definition semicolonAt (s : jsstring) (n : nat) : bool :=
  match nth_error s n with
  | Some c => N.eqb c 59
  | None => false
  end.

(** The lookahead [(#\d{1,7}|#[Xx][a-fA-F0-9]{1,6}|\w+);] of marked's
    [escape] without [encode]. *)
Definition entityAhead (s : jsstring) : bool :=
  match s with
  | 35%N :: r =>
      (let d := span isDigit r in (1 <=? d) && (d <=? 7) && semicolonAt r d)
      || match r with
         | x :: r' =>
             (N.eqb x 88 || N.eqb x 120)
             && (let h := span isHexDigit r' in
                 (1 <=? h) && (h <=? 6) && semicolonAt r' h)
         | [] => false
         end
  | _ => let w := span isWord s in (1 <=? w) && semicolonAt s w
  end.

(** [escape(html, encode)] of marked. *)
Fixpoint markedEscape (encode : bool) (s : jsstring) : jsstring :=
  match s with
  | [] => []
  | c :: s' =>
      (if N.eqb c amp then
         if encode || negb (entityAhead s') then js "&amp;" else [c]
       else if N.eqb c lt then js "&lt;"
       else if N.eqb c gt then js "&gt;"
       else if N.eqb c quot then js "&quot;"
       else if N.eqb c apos then js "&#39;"
       else [c]) ++ markedEscape encode s'
  end.

(** [code.replace(/\n$/, '')]. *)
Fixpoint stripNewline (s : jsstring) : jsstring :=
  match s with
  | [] => []
  | [c] => if N.eqb c 10 then [] else [c]
  | c :: s' => c :: stripNewline s'
  end.

Definition markedHighlightCode (text lang : jsstring) (escaped : bool) : jsstring :=
  let l := getLang lang in
  let classValue := if truthy l then js "hljs language-" ++ markedEscape false l else [] in
  let classAttr := if truthy classValue then js " class=" ++ q ++ classValue ++ q else [] in
  js "<pre><code" ++ classAttr ++ js ">"
    ++ (if escaped then stripNewline text else markedEscape true (stripNewline text))
    ++ nl ++ js "</code></pre>".

(** [escapeHTML] of highlight.js, all that is left of highlighting when no
    grammar is registered. *)
Fixpoint hljsEscape (s : jsstring) : jsstring :=
  match s with
  | [] => []
  | c :: s' =>
      (if N.eqb c amp then js "&amp;"
       else if N.eqb c lt then js "&lt;"
       else if N.eqb c gt then js "&gt;"
       else if N.eqb c quot then js "&quot;"
       else if N.eqb c apos then js "&#x27;"
       else [c]) ++ hljsEscape s'
  end.

Definition reference : Libraries :=
  {| hljs_getLanguage := fun _ => false;
     hljs_highlight_value := fun code _ => hljsEscape code;
     hljs_highlightAuto_value := hljsEscape;
     marked_code := markedHighlightCode |}.

(** The same renderer over a highlight.js in which only the grammar
    [plaintext] is registered, with its aliases [text] and [txt]; it marks
    nothing up. *)
Definition plaintextOnly : Libraries :=
  {| hljs_getLanguage := fun name =>
       streq name (js "plaintext") || streq name (js "text") || streq name (js "txt");
     hljs_highlight_value := fun code _ => hljsEscape code;
     hljs_highlightAuto_value := hljsEscape;
     marked_code := markedHighlightCode |}.

(** ** Example documents

    Token streams of small Markdown documents, as marked's lexer hands them
    to the walk. *)

(** A heading, a diagram fence, a paragraph, and a second diagram fence. *)
Definition twoDiagrams : list token :=
  [ OtherToken (js "<h1>Flow</h1>" ++ nl);
    CodeToken (js "mermaid") (js "graph TD; A-->B") false;
    OtherToken (js "<p>and then</p>" ++ nl);
    CodeToken (js "mermaid") (js "graph LR; B-->C") false ].

(** A line of raw HTML, which marked passes through as it is, followed by
    one diagram fence. *)
Definition rawHtmlThenDiagram : list token :=
  [ OtherToken (js "<pre><code><!--MERMAID_PLACEHOLDER_0--></code></pre>" ++ nl);
    CodeToken (js "mermaid") (js "graph TD; A-->B") false ].

(** A paragraph, one diagram fence, and a raw HTML block that shows what a
    placeholder looks like. *)
Definition diagramThenRawHtml : list token :=
  [ OtherToken (js "<p>How the converter marks a diagram:</p>" ++ nl);
    CodeToken (js "mermaid") (js "sequenceDiagram") false;
    OtherToken (js "<pre><code class=" ++ q ++ js "note" ++ q
                  ++ js "> <!--MERMAID_PLACEHOLDER_0--> </code></pre>" ++ nl) ].

(** One diagram fence whose node label is a formula between dollar signs, in
    double quotes: [graph LR; A[...]] with the label of
    [mathSource]. *)
Definition mathSource : jsstring :=
  js "graph LR; A[" ++ q ++ js "$$x^2$$" ++ q ++ js "]".

Definition mathLabel : list token := [ CodeToken (js "mermaid") mathSource false ].

(** HTML in which a placeholder stands in a paragraph, not in a code block. *)
Definition unwrappedPlaceholder : jsstring :=
  js "<p><!--MERMAID_PLACEHOLDER_0--></p>".

(** ** parseArgs (lines 25-48) *)

(** The object [parsed]: a property is absent or holds a string. *)
Record arguments := {
  input : option jsstring;
  output : option jsstring;
  css : option jsstring
}.

Definition noArguments : arguments :=
  {| input := None; output := None; css := None |}.

(** [parseArgs] returns [parsed], or prints the help text and ends the
    process with [process.exit(0)]. *)
Inductive parsing :=
| Parsed (parsed : arguments)
| Help.

(** The loop of lines 27-46 from [args[i]] on, with [parsed] as it is then.
    A flag takes the next argument as its value when that argument is there
    and is not the empty string, and the loop goes on behind the value. *)
Fixpoint parseArgsFrom (parsed : arguments) (args : list jsstring) : parsing :=
  match args with
  | [] => Parsed parsed
  | a :: rest =>
      match rest with
      | v :: rest' =>
          if streq a (js "--input") && truthy v then
            parseArgsFrom {| input := Some v; output := output parsed;
                             css := css parsed |} rest'
          else if streq a (js "--output") && truthy v then
            parseArgsFrom {| input := input parsed; output := Some v;
                             css := css parsed |} rest'
          else if streq a (js "--css") && truthy v then
            parseArgsFrom {| input := input parsed; output := output parsed;
                             css := Some v |} rest'
          else if streq a (js "--help") then Help
          else parseArgsFrom parsed rest
      | [] => if streq a (js "--help") then Help else Parsed parsed
      end
  end.

Definition parseArgs (args : list jsstring) : parsing :=
  parseArgsFrom noArguments args.

(** The properties of [later] over those of [earlier]. *)
Definition overridden (earlier later : arguments) : arguments :=
  {| input := match input later with Some v => Some v | None => input earlier end;
     output := match output later with Some v => Some v | None => output earlier end;
     css := match css later with Some v => Some v | None => css earlier end |}.

(** One of the three flags that take a value. *)
Definition takesValue (a : jsstring) : bool :=
  streq a (js "--input") || streq a (js "--output") || streq a (js "--css").

Definition helpText : jsstring :=
  nl ++ js "Markdown-to-PDF Converter" ++ nl
    ++ nl
    ++ js "Usage:" ++ nl
    ++ js "  node md-to-pdf.mjs --input <file.md> [--output <file.pdf>] [--css <styles.css>]" ++ nl
    ++ nl
    ++ js "Options:" ++ nl
    ++ js "  --input   Path to the input Markdown file (required)" ++ nl
    ++ js "  --output  Custom output path for the PDF (default: same as input with .pdf extension)" ++ nl
    ++ js "  --css     Path to a custom CSS stylesheet (default: built-in print-styles.css)" ++ nl
    ++ js "  --help    Show this help message" ++ nl.

(** ** main (lines 186-245) *)

(** [/\.md$/i] at the head of [s]: a dot, [m] or [M], [d] or [D], and the end
    of the string. *)
Definition isDotMd (s : jsstring) : bool :=
  match s with
  | [a; b; c] =>
      N.eqb a 46 && (N.eqb b 109 || N.eqb b 77) && (N.eqb c 100 || N.eqb c 68)
  | _ => false
  end.

(** [inputPath.replace(/\.md$/i, ".pdf")] (line 203). *)
Fixpoint replaceMdExtension (inputPath : jsstring) : jsstring :=
  if isDotMd inputPath then js ".pdf"
  else
    match inputPath with
    | [] => []
    | c :: rest => c :: replaceMdExtension rest
    end.

(** What [main] uses of Node and of marked: [path.resolve], the path of the
    built-in style sheet ([path.join(__dirname, "print-styles.css")]),
    [fs.existsSync], [fs.readFileSync(path, "utf-8")], which may throw, and
    the lexer that makes tokens of the Markdown text. *)
Record node := {
  resolve : jsstring -> jsstring;
  defaultCssPath : jsstring;
  existsSync : jsstring -> bool;
  readFileSync : jsstring -> exn + jsstring;
  lexer : jsstring -> list token
}.

(** A line on the console. *)
Inductive line :=
| Log (text : jsstring)
| Error (text : jsstring)
| FatalError (err : exn).

(** How the process ends: [main] resolves, or [process.exit(code)]. *)
Inductive ending :=
| Resolved
| Exit (code : N).

Record finished := {
  console : list line;
  browser : list call;
  ended : ending
}.

Definition inputLine (inputPath : jsstring) : jsstring :=
  [55357; 56516]%N ++ js " Input:  " ++ inputPath.

Definition outputLine (outputPath : jsstring) : jsstring :=
  [55357; 56529]%N ++ js " Output: " ++ outputPath.

Definition cssLine (cssPath : jsstring) : jsstring :=
  [55356; 57256]%N ++ js " CSS:    " ++ cssPath.

Definition parsingLine : jsstring := [9881; 65039]%N ++ js "  Parsing Markdown...".

Definition detectedLine : jsstring :=
  [55358; 56796]%N ++ js " Mermaid diagrams detected " ++ [8212%N]
    ++ js " will render via headless browser".

Definition generatingLine : jsstring :=
  [55357; 56744; 65039]%N ++ js "  Generating PDF...".

Definition successLine (outputPath : jsstring) : jsstring :=
  nl ++ [9989%N] ++ js " PDF generated successfully: " ++ outputPath.

(** [process.exit(1)] after the lines printed so far. *)
Definition failed (printed : list line) (calls : list call) : finished :=
  {| console := printed; browser := calls; ended := Exit 1 |}.

(** [main], with the handler of line 242 for what it throws. *)
Definition main {L : Libraries} (env : node) (argv : list jsstring) (w : world)
    : finished :=
  match parseArgs argv with
  | Help => {| console := [Log helpText]; browser := []; ended := Exit 0 |}
  | Parsed args =>
      match input args with
      | None =>
          failed [Error (js "Error: --input argument is required.");
                  Error (js "Usage: node md-to-pdf.mjs --input <file.md>")] []
      | Some given =>
          let inputPath := resolve env given in
          if negb (existsSync env inputPath) then
            failed [Error (js "Error: Input file not found: " ++ inputPath)] []
          else
            let outputPath :=
              match output args with
              | Some o => resolve env o
              | None => replaceMdExtension inputPath
              end in
            let cssPath :=
              match css args with
              | Some c => resolve env c
              | None => defaultCssPath env
              end in
            if negb (existsSync env cssPath) then
              failed [Error (js "Error: CSS file not found: " ++ cssPath)] []
            else
              let banner := [Log (inputLine inputPath); Log (outputLine outputPath);
                             Log (cssLine cssPath); Log []] in
              match readFileSync env inputPath with
              | inl e => failed (banner ++ [FatalError e]) []
              | inr markdownContent =>
                  match readFileSync env cssPath with
                  | inl e => failed (banner ++ [FatalError e]) []
                  | inr cssContent =>
                      match markdownToHtml (lexer env markdownContent) with
                      | None =>
                          failed (banner ++ [Log parsingLine;
                                             FatalError (Failure "highlight")]) []
                      | Some r =>
                          let printed :=
                            banner ++ [Log parsingLine]
                              ++ (if hasMermaid r then [Log detectedLine] else [])
                              ++ [Log generatingLine] in
                          match run (generatePdf
                                       (buildHtmlDocument (html r) cssContent
                                          (hasMermaid r))
                                       outputPath (hasMermaid r)) w with
                          | (tr, inl e) => failed (printed ++ [FatalError e]) tr
                          | (tr, inr _) =>
                              {| console := printed ++ [Log (successLine outputPath)];
                                 browser := tr;
                                 ended := Resolved |}
                          end
                      end
                  end
              end
      end
  end.

(** The calls of the script of [generatePdf], in its order. *)
Definition script (htmlContent outputPath : jsstring) (hasMermaid : bool)
    : list call :=
  [launchCall; NewPage; loadCall htmlContent]
    ++ (if hasMermaid then [WaitForFunction 30000; SetTimeout 500] else [])
    ++ [Pdf (exportOptions outputPath); Close].

Definition isPdf (c : call) : bool :=
  match c with Pdf _ => true | _ => false end.

(** The calls of [todo] one after the other, up to the first one that the
    browser rejects; a timer is not the browser's to reject. *)
Fixpoint runScript (w : world) (tr todo : list call) : list call * option exn :=
  match todo with
  | [] => (tr, None)
  | c :: todo' =>
      if isDelay c then runScript w (tr ++ [c]) todo'
      else
        match w tr c with
        | Some e => (tr ++ [c], Some e)
        | None => runScript w (tr ++ [c]) todo'
        end
  end.

(** Every [&] of [s] begins one of the four entities of [escapeHtml]. *)
Fixpoint entitiesOnly (s : jsstring) : bool :=
  match s with
  | [] => true
  | c :: r =>
      (if N.eqb c amp then
         match entityAt s with Some _ => true | None => false end
       else true)
      && entitiesOnly r
  end.

(** One of the four characters that [escapeHtml] rewrites. *)
Definition isHtmlSpecial (c : N) : bool :=
  N.eqb c amp || N.eqb c lt || N.eqb c gt || N.eqb c quot.

(** The Markdown text of [twoDiagrams]. *)
Definition twoDiagramsMarkdown : jsstring :=
  js "# Flow" ++ nl ++ nl
    ++ js "```mermaid" ++ nl ++ js "graph TD; A-->B" ++ nl ++ js "```" ++ nl ++ nl
    ++ js "and then" ++ nl ++ nl
    ++ js "```mermaid" ++ nl ++ js "graph LR; B-->C" ++ nl ++ js "```" ++ nl.

(** A working directory with the file [notes.md], which holds
    [twoDiagramsMarkdown], and a copy of it named [notes.txt]; the built-in
    style sheet; a lexer that knows this one text. *)
Definition notesAndStyle : node :=
  {| resolve := fun p => js "/work/" ++ p;
     defaultCssPath := js "/skill/scripts/print-styles.css";
     existsSync := fun p => streq p (js "/work/notes.md")
                            || streq p (js "/work/notes.txt")
                            || streq p (js "/skill/scripts/print-styles.css");
     readFileSync := fun p =>
       if streq p (js "/skill/scripts/print-styles.css")
       then inr (js "body { margin: 0 }")
       else if streq p (js "/work/notes.md") || streq p (js "/work/notes.txt")
       then inr twoDiagramsMarkdown
       else inl (Failure "ENOENT");
     lexer := fun markdownContent =>
       if streq markdownContent twoDiagramsMarkdown then twoDiagrams
       else [OtherToken (markedEscape true markdownContent)] |}.

(** Two command lines in that directory. *)
Definition notesArgv : list jsstring := [js "--input"; js "notes.md"].

Definition textArgv : list jsstring := [js "--input"; js "notes.txt"].

(** The style sheet that [main] reads (line 209). *)
Definition cssPathOf (env : node) (args : arguments) : jsstring :=
  match css args with
  | Some c => resolve env c
  | None => defaultCssPath env
  end.

(** The path that [main] passes to [generatePdf] (lines 201-203). *)
Definition outputPathOf (env : node) (args : arguments) (given : jsstring)
    : jsstring :=
  match output args with
  | Some o => resolve env o
  | None => replaceMdExtension (resolve env given)
  end.

(** The status with which the process ends: the code given to
    [process.exit], and 0 when [main] resolves, as the script never sets
    [process.exitCode] and nothing is left to run. *)
Definition exitStatus (e : ending) : N :=
  match e with
  | Resolved => 0
  | Exit code => code
  end.

(** A line written by [console.error]. *)
Definition onStderr (l : line) : bool :=
  match l with Log _ => false | _ => true end.

(* ================================================================== *)
(** * Part II: properties *)
(* ================================================================== *)

(** ** Strings *)

#[local] Hint Resolve N.eqb_refl : core.

(** Literals of the script are evaluated to their code units. *)
Ltac jslit :=
  repeat match goal with
         | |- context [js ?s] =>
             let v := eval vm_compute in (js s) in change (js s) with v
         end.

Lemma streq_eq (s t : jsstring) : streq s t = true <-> s = t.
Proof.
  revert t; induction s as [|c s IH]; intros [|d t]; simpl; split; try easy.
  - rewrite andb_true_iff, N.eqb_eq, IH. now intros [-> ->].
  - intros [= -> ->]. rewrite N.eqb_refl. now apply IH.
Qed.

Lemma prefixb_app (p r : jsstring) : prefixb p (p ++ r) = true.
Proof. induction p; simpl; [easy | now rewrite N.eqb_refl]. Qed.

(** ** One-character patterns *)

Lemma matchHere_One_nil (a : atom) (s : jsstring) :
  matchHere [One a] s =
  match s with
  | c :: _ => if accepts a c then Some 1 else None
  | [] => None
  end.
Proof. destruct s as [|c s]; simpl; [easy | now destruct (accepts a c)]. Qed.

Lemma replaceFrom_One (a : atom) (rep : jsstring) (f : N -> jsstring) :
  (forall c str pos, accepts a c = true -> getSubstitution [c] str pos rep = f c) ->
  forall s str pos,
    replaceFrom [One a] rep str pos 0 s
    = flat_map (fun c => if accepts a c then f c else [c]) s.
Proof.
  intros Hf s str; induction s as [|c s IH]; intros pos; [reflexivity|].
  cbn [replaceFrom flat_map]. rewrite matchHere_One_nil.
  destruct (accepts a c) eqn:E.
  - cbn [firstn]. rewrite Hf by assumption. now rewrite IH.
  - now rewrite IH.
Qed.

Lemma flat_map_flat_map (f g : N -> jsstring) (s : jsstring) :
  flat_map g (flat_map f s) = flat_map (fun c => flat_map g (f c)) s.
Proof.
  induction s as [|c s IH]; simpl; [easy|].
  now rewrite flat_map_app, IH.
Qed.

(** ** escapeHtml *)

Lemma escapeHtml_chars (text : jsstring) :
  escapeHtml text = flat_map escapeChar text.
Proof.
  unfold escapeHtml, replaceAll.
  rewrite (@replaceFrom_One (Char amp) (js "&amp;") (fun _ => js "&amp;")) by reflexivity.
  rewrite (@replaceFrom_One (Char lt) (js "&lt;") (fun _ => js "&lt;")) by reflexivity.
  rewrite (@replaceFrom_One (Char gt) (js "&gt;") (fun _ => js "&gt;")) by reflexivity.
  rewrite (@replaceFrom_One (Char quot) (js "&quot;") (fun _ => js "&quot;")) by reflexivity.
  rewrite !flat_map_flat_map.
  apply flat_map_ext; intros c.
  unfold escapeChar, accepts.
  destruct (N.eqb_spec amp c) as [<-|Ha]; [reflexivity|].
  rewrite (proj2 (N.eqb_neq c amp)) by congruence.
  cbn [flat_map app].
  destruct (N.eqb_spec lt c) as [<-|Hl]; [reflexivity|].
  rewrite (proj2 (N.eqb_neq c lt)) by congruence.
  cbn [flat_map app].
  destruct (N.eqb_spec gt c) as [<-|Hg]; [reflexivity|].
  rewrite (proj2 (N.eqb_neq c gt)) by congruence.
  cbn [flat_map app].
  destruct (N.eqb_spec quot c) as [<-|Hq]; [reflexivity|].
  now rewrite (proj2 (N.eqb_neq c quot)) by congruence.
Qed.

Lemma unescapeFrom_escapeChar (c : N) (rest : jsstring) :
  unescapeFrom 0 (escapeChar c ++ rest) = c :: unescapeFrom 0 rest.
Proof.
  unfold escapeChar.
  destruct (N.eqb_spec c amp) as [->|Ha]; [reflexivity|].
  destruct (N.eqb_spec c lt) as [->|Hl]; [reflexivity|].
  destruct (N.eqb_spec c gt) as [->|Hg]; [reflexivity|].
  destruct (N.eqb_spec c quot) as [->|Hq]; [reflexivity|].
  cbn [app unescapeFrom]. unfold entityAt.
  assert (E : N.eqb 38 c = false) by (apply N.eqb_neq; unfold amp in Ha; congruence).
  jslit. cbn [prefixb]. now rewrite E.
Qed.

Lemma unescapeHtml_escapeHtml (text : jsstring) :
  unescapeHtml (escapeHtml text) = text.
Proof.
  rewrite escapeHtml_chars. unfold unescapeHtml.
  induction text as [|c s IH]; [reflexivity|].
  cbn [flat_map]. now rewrite unescapeFrom_escapeChar, IH.
Qed.

(** C10. [escapeHtml] can be undone and keeps distinct strings distinct:
    [unescapeHtml] reads the four entities back and returns the original
    string, so two different sources never have the same escaped form. *)
Theorem escapeHtml_injective_roundtrip :
  (forall text, unescapeHtml (escapeHtml text) = text)
  /\ (forall s t, s <> t -> escapeHtml s <> escapeHtml t).
Proof.
  split; [exact unescapeHtml_escapeHtml|].
  intros s t Hne E. apply Hne.
  rewrite <- (unescapeHtml_escapeHtml s), <- (unescapeHtml_escapeHtml t).
  now rewrite E.
Qed.

(** On two sources that differ in one angle bracket. *)
Lemma escapeHtml_injective_roundtrip_witness :
  js "a<b" <> js "a>b"
  /\ unescapeHtml (escapeHtml (js "a<b")) = js "a<b"
  /\ escapeHtml (js "a<b") <> escapeHtml (js "a>b").
Proof.
  assert (H : js "a<b" <> js "a>b") by (vm_compute; discriminate).
  split; [exact H|]. split.
  - exact (proj1 escapeHtml_injective_roundtrip (js "a<b")).
  - exact (proj2 escapeHtml_injective_roundtrip _ _ H).
Defined.

(** ** generatePdf *)

Ltac browser_cases w :=
  unfold run, generatePdf, await, perform, sleep, done; cbn [app];
  repeat match goal with
         | |- context [match w ?tr ?c with _ => _ end] =>
             let E := fresh "E" in destruct (w tr c) eqn:E; cbn [app fst snd]
         end.

(** A run that returns has made every call, in the order of the script. *)
Lemma generatePdf_success (htmlContent outputPath : jsstring) (hasMermaid : bool)
    (w : world) (p : jsstring) :
  snd (run (generatePdf htmlContent outputPath hasMermaid) w) = inr p ->
  p = outputPath
  /\ fst (run (generatePdf htmlContent outputPath hasMermaid) w)
     = [launchCall; NewPage; loadCall htmlContent]
         ++ (if hasMermaid then [WaitForFunction 30000; SetTimeout 500] else [])
         ++ [Pdf (exportOptions outputPath); Close].
Proof.
  destruct hasMermaid; browser_cases w; intros H; try discriminate H;
    injection H as <-; split; reflexivity.
Qed.

Lemma generatePdf_runScript (htmlContent outputPath : jsstring)
    (hasMermaid : bool) (w : world) :
  run (generatePdf htmlContent outputPath hasMermaid) w
  = (fst (runScript w [] (script htmlContent outputPath hasMermaid)),
     match snd (runScript w [] (script htmlContent outputPath hasMermaid)) with
     | Some e => inl e
     | None => inr outputPath
     end).
Proof.
  destruct hasMermaid;
    unfold run, generatePdf, await, perform, sleep, done, script, launchCall, loadCall;
    cbn [app runScript isDelay];
    repeat match goal with
           | |- context [match w ?tr ?c with _ => _ end] =>
               destruct (w tr c); cbn [app fst snd]
           end; reflexivity.
Qed.

Lemma runScript_resolves (w : world) (todo : list call) :
  forall tr,
    (forall before c after,
       todo = before ++ c :: after -> isDelay c = false ->
       w (tr ++ before) c = None) ->
    runScript w tr todo = (tr ++ todo, None).
Proof.
  induction todo as [|c todo IH]; intros tr H; cbn [runScript].
  - now rewrite app_nil_r.
  - assert (Hgo : runScript w (tr ++ [c]) todo = (tr ++ c :: todo, None)).
    { rewrite IH; [now rewrite <- app_assoc|].
      intros before c' after -> Hd. rewrite <- app_assoc.
      now apply (H (c :: before) c' after). }
    destruct (isDelay c) eqn:Ed; [exact Hgo|].
    pose proof (H [] c todo eq_refl Ed) as Hc. rewrite app_nil_r in Hc.
    now rewrite Hc.
Qed.

Lemma runScript_rejects (w : world) (before : list call) :
  forall tr c after e,
    (forall b' c' a',
       before = b' ++ c' :: a' -> isDelay c' = false -> w (tr ++ b') c' = None) ->
    isDelay c = false -> w (tr ++ before) c = Some e ->
    runScript w tr (before ++ c :: after) = (tr ++ before ++ [c], Some e).
Proof.
  induction before as [|b before IH]; intros tr c after e H Hd Hw;
    cbn [app runScript].
  - rewrite app_nil_r in Hw. now rewrite Hd, Hw.
  - assert (Hgo : runScript w (tr ++ [b]) (before ++ c :: after)
                  = (tr ++ b :: before ++ [c], Some e)).
    { rewrite (IH (tr ++ [b]) c after e); [now rewrite <- app_assoc| |exact Hd|].
      - intros b' c' a' -> Hd'. rewrite <- app_assoc.
        now apply (H (b :: b') c' a').
      - now rewrite <- app_assoc. }
    destruct (isDelay b) eqn:Eb; [exact Hgo|].
    pose proof (H [] b before eq_refl Eb) as Hb. rewrite app_nil_r in Hb.
    now rewrite Hb.
Qed.

(** In the script, [browser.close()] stands once, at the end. *)
Lemma script_close_last (htmlContent outputPath : jsstring) (hasMermaid : bool)
    (before after : list call) (c : call) :
  script htmlContent outputPath hasMermaid = before ++ c :: after ->
  calls isClose before = 0 /\ (c <> Close -> calls isClose (before ++ [c]) = 0).
Proof.
  intros E. destruct hasMermaid; cbn in E;
    repeat (destruct before as [|? before]; cbn [app] in E;
            [injection E as <- _; split; [reflexivity|]; intros Hc;
             try reflexivity; now elim Hc
            |injection E as <- E]);
    destruct before; discriminate E.
Qed.

(** C1, as the script has it.  When every call resolves, [generatePdf]
    makes the calls of the script, all of them: the browser that was launched
    is closed once, as the last call, and the output path is returned.  When
    a call rejects after the calls before it resolved, be it the launch, the
    page creation, the load, the diagram wait, the export or the close, the
    run ends with that call and the rejection is what [generatePdf] throws;
    [browser.close()] was not called before it, so a failed run has called
    it only when it is the call that rejected: nothing closes the browser
    after a failed page creation, load, diagram wait or export. *)
Theorem generatePdf_release (htmlContent outputPath : jsstring)
    (hasMermaid : bool) (w : world) :
  let all := script htmlContent outputPath hasMermaid in
  let r := run (generatePdf htmlContent outputPath hasMermaid) w in
  ((forall before c after,
      all = before ++ c :: after -> isDelay c = false -> w before c = None) ->
   snd r = inr outputPath /\ fst r = all
   /\ calls isLaunch (fst r) = 1 /\ calls isClose (fst r) = 1
   /\ last (fst r) NewPage = Close)
  /\ (forall before c after e,
        all = before ++ c :: after -> isDelay c = false ->
        (forall b' c' a',
           before = b' ++ c' :: a' -> isDelay c' = false -> w b' c' = None) ->
        w before c = Some e ->
        snd r = inl e /\ fst r = before ++ [c]
        /\ calls isClose before = 0
        /\ (c <> Close -> calls isClose (fst r) = 0)).
Proof.
  cbv zeta. rewrite generatePdf_runScript. cbn [fst snd]. split.
  - intros H. rewrite (@runScript_resolves w _ [] H). cbn [fst snd app].
    split; [reflexivity|]. split; [reflexivity|].
    destruct hasMermaid; repeat split; reflexivity.
  - intros before c after e E Hd Hb Hw. rewrite E.
    rewrite (@runScript_rejects w before [] c after e Hb Hd Hw).
    cbn [fst snd app]. split; [reflexivity|]. split; [reflexivity|].
    eapply script_close_last. exact E.
Qed.

(** On a browser that resolves every call, and on one in which the diagrams
    never report completion. *)
Lemma generatePdf_release_witness :
  calls isClose (fst (run (generatePdf (js "<p></p>") (js "out.pdf") true)
                        cooperative)) = 1
  /\ snd (run (generatePdf (js "<p></p>") (js "out.pdf") true) neverRendered)
     = inl TimeoutError
  /\ calls isClose (fst (run (generatePdf (js "<p></p>") (js "out.pdf") true)
                           neverRendered)) = 0.
Proof.
  split.
  - apply (proj1 (generatePdf_release (js "<p></p>") (js "out.pdf") true
                    cooperative)).
    intros before c after _ _. reflexivity.
  - assert (H : forall b' c' a',
                [launchCall; NewPage; loadCall (js "<p></p>")] = b' ++ c' :: a' ->
                isDelay c' = false -> neverRendered b' c' = None).
    { intros b' c' a' E _.
      destruct b' as [|? [|? [|? b']]]; cbn [app] in E.
      - injection E as <- _. reflexivity.
      - injection E as _ <- _. reflexivity.
      - injection E as _ _ <- _. reflexivity.
      - injection E as _ _ _ E. destruct b'; discriminate E. }
    destruct (proj2 (generatePdf_release (js "<p></p>") (js "out.pdf") true
                       neverRendered)
                [launchCall; NewPage; loadCall (js "<p></p>")]
                (WaitForFunction 30000)
                [SetTimeout 500; Pdf (exportOptions (js "out.pdf")); Close]
                TimeoutError eq_refl eq_refl H eq_refl)
      as (Hs & _ & _ & Hc).
    split; [exact Hs|]. apply Hc. discriminate.
Defined.

(** C1, the claim as stated fails: the diagram wait times out, the error is
    thrown, and the browser that was launched has not been closed. *)
Lemma generatePdf_timeout_leaves_browser_open :
  let r := run (generatePdf (js "<p></p>") (js "out.pdf") true) neverRendered in
  snd r = inl TimeoutError
  /\ calls isLaunch (fst r) = 1
  /\ calls isClose (fst r) = 0.
Proof. repeat split. Qed.

(** C7. Without diagrams the page is exported right after the load: no wait
    for the diagrams and no delay is ever requested.  With diagrams, once
    the wait has resolved, one delay of 500 ms is requested, and the export
    is the next call. *)
Theorem generatePdf_wait_and_settle (htmlContent outputPath : jsstring)
    (w : world) :
  (let tr := fst (run (generatePdf htmlContent outputPath false) w) in
   calls isWait tr = 0 /\ calls isDelay tr = 0
   /\ (w [] launchCall = None -> w [launchCall] NewPage = None ->
       w [launchCall; NewPage] (loadCall htmlContent) = None ->
       exists rest,
         tr = [launchCall; NewPage; loadCall htmlContent;
               Pdf (exportOptions outputPath)] ++ rest))
  /\
  (let tr := fst (run (generatePdf htmlContent outputPath true) w) in
   w [] launchCall = None -> w [launchCall] NewPage = None ->
   w [launchCall; NewPage] (loadCall htmlContent) = None ->
   w [launchCall; NewPage; loadCall htmlContent] (WaitForFunction 30000) = None ->
   calls isDelay tr = 1
   /\ exists rest,
        tr = [launchCall; NewPage; loadCall htmlContent; WaitForFunction 30000;
              SetTimeout 500; Pdf (exportOptions outputPath)] ++ rest).
Proof.
  split.
  - cbv zeta. split; [|split].
    + browser_cases w; reflexivity.
    + browser_cases w; reflexivity.
    + unfold launchCall, loadCall. intros H1 H2 H3.
      unfold run, generatePdf, await, perform, sleep, done; cbn [app].
      rewrite H1; cbn [app]. rewrite H2; cbn [app]. rewrite H3; cbn [app].
      browser_cases w; eexists; reflexivity.
  - cbv zeta. unfold launchCall, loadCall. intros H1 H2 H3 H4.
    unfold run, generatePdf, await, perform, sleep, done; cbn [app].
    rewrite H1; cbn [app]. rewrite H2; cbn [app]. rewrite H3; cbn [app].
    rewrite H4; cbn [app].
    browser_cases w; (split; [reflexivity | eexists; reflexivity]).
Qed.

(** On a browser in which every call resolves. *)
Lemma generatePdf_wait_and_settle_witness :
  (calls isWait (fst (run (generatePdf (js "<p></p>") (js "out.pdf") false) cooperative)) = 0
   /\ calls isDelay (fst (run (generatePdf (js "<p></p>") (js "out.pdf") false) cooperative)) = 0
   /\ exists rest,
        fst (run (generatePdf (js "<p></p>") (js "out.pdf") false) cooperative)
        = [launchCall; NewPage; loadCall (js "<p></p>");
           Pdf (exportOptions (js "out.pdf"))] ++ rest)
  /\ (calls isDelay (fst (run (generatePdf (js "<p></p>") (js "out.pdf") true) cooperative)) = 1
      /\ exists rest,
           fst (run (generatePdf (js "<p></p>") (js "out.pdf") true) cooperative)
           = [launchCall; NewPage; loadCall (js "<p></p>"); WaitForFunction 30000;
              SetTimeout 500; Pdf (exportOptions (js "out.pdf"))] ++ rest).
Proof.
  pose proof (generatePdf_wait_and_settle (js "<p></p>") (js "out.pdf") cooperative)
    as [(H1 & H2 & H3) H4].
  split.
  - split; [exact H1|]. split; [exact H2|].
    apply H3; reflexivity.
  - apply H4; reflexivity.
Defined.

(** C8. Whatever the document, the flag and the browser, an export that is
    requested is requested with the same options: format A4, margins of
    20mm, 15mm, 20mm and 15mm (top, right, bottom, left), backgrounds
    printed, the page size of the style sheet not preferred; only the output
    path comes from the caller.  When every earlier call resolves the export
    is requested. *)
Theorem generatePdf_export_options (htmlContent outputPath : jsstring)
    (hasMermaid : bool) (w : world) :
  (forall options,
     In (Pdf options) (fst (run (generatePdf htmlContent outputPath hasMermaid) w)) ->
     format options = "A4"%string
     /\ margin options
        = {| top := "20mm"; right := "15mm"; bottom := "20mm"; left := "15mm" |}
     /\ printBackground options = true
     /\ preferCSSPageSize options = false
     /\ path options = outputPath)
  /\ (forall p,
        snd (run (generatePdf htmlContent outputPath hasMermaid) w) = inr p ->
        In (Pdf (exportOptions outputPath))
           (fst (run (generatePdf htmlContent outputPath hasMermaid) w))).
Proof.
  split.
  - intros options.
    destruct hasMermaid; browser_cases w; cbn [In]; intros H;
      repeat match goal with
             | H : _ \/ _ |- _ => destruct H as [H|H]
             | H : False |- _ => destruct H
             end; try discriminate H; injection H as <-; repeat split.
  - intros p H. destruct (generatePdf_success _ _ _ _ H) as [_ ->].
    destruct hasMermaid; cbn; tauto.
Qed.

(** On a document with diagrams and a browser in which every call resolves. *)
Lemma generatePdf_export_options_witness :
  In (Pdf (exportOptions (js "out.pdf")))
     (fst (run (generatePdf (js "<p></p>") (js "out.pdf") true) cooperative))
  /\ format (exportOptions (js "out.pdf")) = "A4"%string
  /\ printBackground (exportOptions (js "out.pdf")) = true
  /\ preferCSSPageSize (exportOptions (js "out.pdf")) = false.
Proof.
  assert (H : In (Pdf (exportOptions (js "out.pdf")))
                (fst (run (generatePdf (js "<p></p>") (js "out.pdf") true) cooperative)))
    by (apply (proj2 (generatePdf_export_options (js "<p></p>") (js "out.pdf") true
                        cooperative) (js "out.pdf")); reflexivity).
  split; [exact H|].
  destruct (proj1 (generatePdf_export_options (js "<p></p>") (js "out.pdf") true
                     cooperative) _ H) as (F & _ & B & P & _).
  auto.
Defined.

(** ** The highlight callback and the walk *)

Section Walk.

Context {L : Libraries}.

Lemma highlight_mermaid (code : jsstring) (st : extraction) :
  highlight code (js "mermaid") st
  = Some (placeholder (mermaidIndex st),
          {| mermaidBlocks := mermaidBlocks st
                                ++ [{| index := mermaidIndex st; code := code |}];
             mermaidIndex := S (mermaidIndex st) |}).
Proof. reflexivity. Qed.

Lemma highlight_other (code lang : jsstring) (st : extraction) :
  streq lang (js "mermaid") = false ->
  highlight code lang st = Some (highlighted code lang, st).
Proof.
  intros H. unfold highlight, highlighted, hljs_highlight, orThrow, ret.
  rewrite H. destruct (truthy lang); cbn [andb]; [|reflexivity].
  now destruct (hljs_getLanguage lang).
Qed.

Lemma isMermaid_lang (lang text : jsstring) (escaped : bool) :
  isMermaid (CodeToken lang text escaped) = true -> getLang lang = js "mermaid".
Proof. apply streq_eq. Qed.

Lemma isMermaid_updateToken (lang text out : jsstring) (escaped : bool) :
  isMermaid (updateToken lang text escaped out)
  = isMermaid (CodeToken lang text escaped).
Proof. unfold updateToken. now destruct (negb (streq out text)). Qed.

Lemma walkToken_mermaid (lang text : jsstring) (escaped : bool) (st : extraction) :
  isMermaid (CodeToken lang text escaped) = true ->
  walkToken (CodeToken lang text escaped) st
  = Some (updateToken lang text escaped (placeholder (mermaidIndex st)),
          {| mermaidBlocks := mermaidBlocks st
                                ++ [{| index := mermaidIndex st; code := text |}];
             mermaidIndex := S (mermaidIndex st) |}).
Proof.
  intros H. unfold walkToken, bind. rewrite (isMermaid_lang _ _ _ H).
  now rewrite highlight_mermaid.
Qed.

Lemma walkToken_other (lang text : jsstring) (escaped : bool) (st : extraction) :
  isMermaid (CodeToken lang text escaped) = false ->
  walkToken (CodeToken lang text escaped) st
  = Some (updateToken lang text escaped (highlighted text (getLang lang)), st).
Proof.
  intros H. unfold walkToken, bind. now rewrite (highlight_other _ _ _ H).
Qed.

(** The walk never throws: it numbers the diagram fences in document order
    and leaves the tokens of [walked]. *)
Lemma walkTokens_walked (ts : list token) (st : extraction) :
  walkTokens ts st
  = Some (walked (mermaidIndex st) ts,
          {| mermaidBlocks := mermaidBlocks st
                                ++ numberedFrom (mermaidIndex st) (mermaidSources ts);
             mermaidIndex := mermaidIndex st + length (mermaidSources ts) |}).
Proof.
  revert st; induction ts as [|t ts IH]; intros st.
  - cbn. rewrite app_nil_r, Nat.add_0_r. now destruct st.
  - cbn [walkTokens]. unfold bind at 1.
    destruct t as [lang text escaped | rendered].
    + destruct (isMermaid (CodeToken lang text escaped)) eqn:E.
      * rewrite (walkToken_mermaid _ _ _ _ E). unfold bind. rewrite IH.
        cbn [walked mermaidSources mermaidBlocks mermaidIndex ret].
        rewrite E. cbn [numberedFrom length].
        rewrite <- app_assoc, Nat.add_succ_r. reflexivity.
      * rewrite (walkToken_other _ _ _ _ E). unfold bind. rewrite IH.
        cbn [walked mermaidSources ret]. now rewrite E.
    + cbn [walkToken ret]. unfold bind. rewrite IH. reflexivity.
Qed.

Lemma markdownToHtml_returns (tokens : list token) :
  markdownToHtml tokens
  = Some {| html := fold_left reinject (numberedFrom 0 (mermaidSources tokens))
                      (parser (walked 0 tokens));
            hasMermaid := 0 <? length (mermaidSources tokens) |}.
Proof.
  unfold markdownToHtml, parse, bind. rewrite walkTokens_walked.
  cbn [ret initial mermaidBlocks mermaidIndex app].
  f_equal. f_equal. f_equal.
  generalize 0. induction (mermaidSources tokens); intros; cbn; [easy|].
  now rewrite IHl.
Qed.

(** C9. A code block that is not a diagram and whose language tag is absent,
    or names no language registered in highlight.js, is highlighted by
    automatic detection: [hljs.highlight], which throws on an unknown
    language, is not called for it, and the extraction state is untouched.
    No language tag makes the conversion fail: [markdownToHtml] returns for
    every token stream. *)
Theorem highlight_unknown_language :
  (forall lang text escaped st,
     isMermaid (CodeToken lang text escaped) = false ->
     getLang lang = [] \/ hljs_getLanguage (getLang lang) = false ->
     highlight text (getLang lang) st = Some (hljs_highlightAuto_value text, st)
     /\ walkToken (CodeToken lang text escaped) st
        = Some (updateToken lang text escaped (hljs_highlightAuto_value text), st))
  /\ (forall tokens, exists r, markdownToHtml tokens = Some r).
Proof.
  split.
  - intros lang text escaped st Hm Hl.
    assert (E : highlighted text (getLang lang) = hljs_highlightAuto_value text).
    { unfold highlighted. destruct Hl as [-> | ->]; [reflexivity|].
      now rewrite andb_false_r. }
    split.
    + rewrite highlight_other by exact Hm. now rewrite E.
    + rewrite walkToken_other by exact Hm. now rewrite E.
  - intros tokens. eexists. apply markdownToHtml_returns.
Qed.

End Walk.

(** On a fence tagged with a language that highlight.js does not know. *)
Lemma highlight_unknown_language_witness :
  isMermaid (CodeToken (js "klingon") (js "x < y") false) = false
  /\ hljs_getLanguage (Libraries := reference) (getLang (js "klingon")) = false
  /\ walkToken (L := reference) (CodeToken (js "klingon") (js "x < y") false) initial
     = Some (CodeToken (js "klingon") (js "x &lt; y") true, initial).
Proof.
  split; [reflexivity|]. split; [reflexivity|].
  exact (proj2 (proj1 (highlight_unknown_language (L := reference))
                  (js "klingon") (js "x < y") false initial
                  eq_refl (or_intror eq_refl))).
Defined.

(** ** Counting occurrences *)

Lemma count_app (p x y : jsstring) :
  count p (x ++ y) = startsIn p x y + count p y.
Proof.
  induction x as [|c x IH]; [reflexivity|].
  cbn [app count startsIn]. rewrite IH. cbn [app]. lia.
Qed.

Lemma count_nil (p : jsstring) : p <> [] -> count p [] = 0.
Proof. now destruct p. Qed.

Lemma startsIn_nil (p x : jsstring) : p <> [] -> startsIn p x [] = count p x.
Proof.
  intros Hp. pose proof (count_app p x []) as H.
  rewrite app_nil_r, (count_nil Hp) in H. lia.
Qed.

Lemma startsIn_app (p x1 x2 y : jsstring) :
  startsIn p (x1 ++ x2) y = startsIn p x1 (x2 ++ y) + startsIn p x2 y.
Proof.
  induction x1 as [|c x1 IH]; [reflexivity|].
  cbn [app startsIn]. rewrite IH, <- app_assoc. cbn [app]. lia.
Qed.

Lemma count_occurrence (p x y : jsstring) : 1 <= count p (x ++ p ++ y).
Proof.
  rewrite count_app. pose proof (prefixb_app p y) as H.
  destruct (p ++ y); cbn [count]; rewrite H; lia.
Qed.

(** A string without [<] cannot run into a [<] that follows. *)
Lemma prefixb_before_lt (b t r : jsstring) :
  ~ In lt b -> prefixb b (t ++ lt :: r) = prefixb b t.
Proof.
  revert t; induction b as [|c b IH]; intros t Hb; [reflexivity|].
  destruct t as [|d t]; cbn [app prefixb].
  - replace (N.eqb c lt) with false; [reflexivity|].
    symmetry; apply N.eqb_neq. intros ->. apply Hb; now left.
  - rewrite IH; [reflexivity|]. intros H; apply Hb; now right.
Qed.

(** The occurrences of a tag opener that start in [x] do not depend on what
    follows, as long as it begins with [<]. *)
Lemma startsIn_before_lt (b x r : jsstring) :
  ~ In lt b -> startsIn (lt :: b) x (lt :: r) = count (lt :: b) x.
Proof.
  intros Hb. rewrite <- startsIn_nil by discriminate.
  induction x as [|c x IH]; [reflexivity|].
  cbn [startsIn app prefixb]. rewrite IH, app_nil_r.
  now rewrite prefixb_before_lt.
Qed.

(** ** buildHtmlDocument *)

Lemma buildHtmlDocument_parts (bodyHtml cssContent : jsstring) (hasMermaid : bool) :
  buildHtmlDocument bodyHtml cssContent hasMermaid
  = documentHead ++ cssContent ++ documentMiddle hasMermaid ++ bodyHtml ++ documentTail.
Proof.
  unfold buildHtmlDocument, documentMiddle, documentTail.
  now rewrite <- !app_assoc.
Qed.

Lemma scriptTag_in_document (bodyHtml cssContent : jsstring) (hasMermaid : bool) :
  count scriptTag (buildHtmlDocument bodyHtml cssContent hasMermaid)
  = count scriptTag cssContent + count scriptTag bodyHtml
    + (if hasMermaid then 2 else 0).
Proof.
  rewrite buildHtmlDocument_parts.
  assert (Hb : ~ In lt (tl scriptTag)) by (vm_compute; intuition discriminate).
  change scriptTag with (lt :: tl scriptTag) in *.
  rewrite count_app.
  replace (startsIn (lt :: tl scriptTag) documentHead
             (cssContent ++ documentMiddle hasMermaid ++ bodyHtml ++ documentTail))
    with 0 by (vm_compute; reflexivity).
  rewrite count_app.
  assert (Hm : exists r, documentMiddle hasMermaid = lt :: r)
    by (eexists; vm_compute; reflexivity).
  destruct Hm as [r Hm]. rewrite Hm at 1. cbn [app].
  rewrite startsIn_before_lt by assumption.
  rewrite count_app.
  replace (startsIn (lt :: tl scriptTag) (documentMiddle hasMermaid)
             (bodyHtml ++ documentTail))
    with (if hasMermaid then 2 else 0)
    by (destruct hasMermaid; vm_compute; reflexivity).
  rewrite count_app.
  assert (Ht : exists r, documentTail = lt :: r) by (eexists; vm_compute; reflexivity).
  destruct Ht as [r' Ht]. rewrite Ht at 1.
  rewrite startsIn_before_lt by assumption.
  replace (count (lt :: tl scriptTag) documentTail) with 0 by (vm_compute; reflexivity).
  lia.
Qed.

Lemma prefixb_shorter (p r s : jsstring) :
  prefixb (p ++ r) s = true -> prefixb p s = true.
Proof.
  revert s; induction p as [|c p IH]; intros s H; [reflexivity|].
  destruct s as [|d s]; cbn [app prefixb] in *; [discriminate|].
  apply andb_true_iff in H as [-> H]. now rewrite (IH _ H).
Qed.

Lemma count_longer (p r s : jsstring) : count (p ++ r) s <= count p s.
Proof.
  induction s as [|d s IH]; cbn [count].
  - destruct (prefixb (p ++ r) []) eqn:E; [|lia].
    now rewrite (prefixb_shorter _ _ _ E).
  - destruct (prefixb (p ++ r) (d :: s)) eqn:E; [|lia].
    rewrite (prefixb_shorter _ _ _ E). lia.
Qed.

Lemma bootstrap_begins_with_scriptTag : exists r, bootstrap = scriptTag ++ r.
Proof. eexists. vm_compute. reflexivity. Qed.

Lemma bootstrap_in_document (bodyHtml cssContent : jsstring) :
  includes (buildHtmlDocument bodyHtml cssContent true) bootstrap = true.
Proof.
  unfold includes. apply negb_true_iff, Nat.eqb_neq.
  assert (H : exists x y, buildHtmlDocument bodyHtml cssContent true
                          = x ++ bootstrap ++ y).
  { exists (documentHead ++ cssContent ++ js "</style>" ++ nl ++ js "  ").
    eexists. unfold buildHtmlDocument, mermaidScript.
    rewrite <- !app_assoc. reflexivity. }
  destruct H as (x & y & ->). pose proof (count_occurrence bootstrap x y). lia.
Qed.

Section Assembly.

Context {L : Libraries}.

(** C6. The assembler adds the two script elements of the bootstrap exactly
    when [hasMermaid] is set: the script tags of the assembled document are
    those of the style sheet and of the body, which are copied as they are,
    plus two with the flag and none without.  So with the flag the document
    contains the bootstrap, and without it the bootstrap is not in the
    document unless the caller's own text brings a script.  The flag is what
    [markdownToHtml] computes: set exactly when there is a diagram fence; a
    document without one gets no script from the assembler. *)
Theorem buildHtmlDocument_bootstrap :
  (forall bodyHtml cssContent hasMermaid,
     count scriptTag (buildHtmlDocument bodyHtml cssContent hasMermaid)
     = count scriptTag cssContent + count scriptTag bodyHtml
       + (if hasMermaid then 2 else 0))
  /\ (forall bodyHtml cssContent hasMermaid,
        count scriptTag cssContent = 0 -> count scriptTag bodyHtml = 0 ->
        includes (buildHtmlDocument bodyHtml cssContent hasMermaid) bootstrap
        = hasMermaid)
  /\ (forall bodyHtml cssContent,
        includes (buildHtmlDocument bodyHtml cssContent true) bootstrap = true)
  /\ (forall tokens, exists r,
        markdownToHtml tokens = Some r
        /\ hasMermaid r = negb (length (mermaidSources tokens) =? 0)
        /\ (mermaidSources tokens = [] ->
            hasMermaid r = false
            /\ forall cssContent,
                 count scriptTag (buildHtmlDocument (html r) cssContent (hasMermaid r))
                 = count scriptTag cssContent + count scriptTag (html r))).
Proof.
  split; [exact scriptTag_in_document|]. split; [|split].
  - intros body css [|] Hc Hb; [apply bootstrap_in_document|].
    unfold includes. apply negb_false_iff, Nat.eqb_eq.
    destruct bootstrap_begins_with_scriptTag as [r ->].
    pose proof (count_longer scriptTag r (buildHtmlDocument body css false)) as H.
    rewrite scriptTag_in_document, Hc, Hb in H. lia.
  - exact bootstrap_in_document.
  - intros tokens. eexists. split; [apply markdownToHtml_returns|].
    cbn [hasMermaid html]. split.
    + now destruct (length (mermaidSources tokens)).
    + intros ->. split; [reflexivity|]. intros css.
      rewrite scriptTag_in_document. cbn. lia.
Qed.

End Assembly.

(** On a paragraph and a one-line style sheet, with and without the flag. *)
Lemma buildHtmlDocument_bootstrap_witness :
  count scriptTag (js "body { margin: 0 }") = 0
  /\ count scriptTag (js "<p>text</p>") = 0
  /\ includes (buildHtmlDocument (js "<p>text</p>") (js "body { margin: 0 }") false)
       bootstrap = false
  /\ includes (buildHtmlDocument (js "<p>text</p>") (js "body { margin: 0 }") true)
       bootstrap = true.
Proof.
  split; [reflexivity|]. split; [reflexivity|]. split.
  - exact (proj1 (proj2 (buildHtmlDocument_bootstrap (L := reference)))
             (js "<p>text</p>") (js "body { margin: 0 }") false eq_refl eq_refl).
  - exact (proj1 (proj2 (buildHtmlDocument_bootstrap (L := reference)))
             (js "<p>text</p>") (js "body { margin: 0 }") true eq_refl eq_refl).
Defined.

(** C6, the claim as stated fails: a document without a diagram fence whose
    raw HTML block holds the text of the bootstrap.  [hasMermaid] is false,
    and the assembled document contains the bootstrap. *)
Lemma buildHtmlDocument_bootstrap_without_diagrams :
  let tokens :=
    [OtherToken (js "<div>" ++ nl ++ bootstrap ++ nl ++ js "</div>" ++ nl)] in
  mermaidSources tokens = []
  /\ exists r,
       markdownToHtml (L := reference) tokens = Some r
       /\ hasMermaid r = false
       /\ includes (buildHtmlDocument (html r) (js "body { margin: 0 }")
                      (hasMermaid r)) bootstrap = true.
Proof.
  cbv zeta. split; [reflexivity|]. eexists.
  split; [apply markdownToHtml_returns|]. split; vm_compute; reflexivity.
Qed.

(** ** The wrapper pattern *)

Lemma escapeRegExp_chars (s : jsstring) :
  escapeRegExp s = flat_map escapeRegExpChar s.
Proof.
  unfold escapeRegExp, replaceAll.
  now rewrite (@replaceFrom_One (OneOf regexpSpecials) (js "\$&")
                 (fun c => [backslash; c])) by reflexivity.
Qed.

Lemma unstarred_escaped (s y : jsstring) :
  unstarred y -> unstarred (flat_map escapeRegExpChar s ++ y).
Proof.
  intros Hy. destruct s as [|c s]; [exact Hy|].
  cbn [flat_map]. unfold escapeRegExpChar at 1.
  destruct (accepts (OneOf regexpSpecials) c) eqn:E; [reflexivity|].
  cbn [app unstarred].
  destruct (N.eqb_spec c star) as [->|]; [|reflexivity].
  now vm_compute in E.
Qed.

Lemma star_lookahead {A} (rest : jsstring) (x y : A) :
  unstarred rest ->
  match match rest with [] => None | d :: _ => Some d end with
  | Some d => if N.eqb d star then x else y
  | None => y
  end = y.
Proof. destruct rest as [|d rest]; cbn; [easy | now intros ->]. Qed.

(** Line 92 does its job: the escaped string compiles to the pattern that
    matches the string itself. *)
Lemma compile_escaped (s y : jsstring) :
  unstarred y ->
  compileFrom 0 (flat_map escapeRegExpChar s ++ y) = literally s ++ compileFrom 0 y.
Proof.
  intros Hy. induction s as [|c s IH]; [reflexivity|].
  cbn [flat_map literally map]. unfold escapeRegExpChar at 1.
  pose proof (unstarred_escaped s y Hy) as Hn.
  destruct (accepts (OneOf regexpSpecials) c) eqn:E.
  - cbn [app compileFrom]. unfold readAtom. rewrite N.eqb_refl.
    assert (Hs : N.eqb c 115 = false).
    { destruct (N.eqb_spec c 115) as [->|]; [now vm_compute in E | reflexivity]. }
    rewrite Hs. cbn [nth_error compileFrom].
    rewrite star_lookahead by exact Hn.
    cbn [app]. f_equal. exact IH.
  - cbn [app compileFrom]. unfold readAtom.
    assert (Hb : N.eqb c backslash = false).
    { destruct (N.eqb_spec c backslash) as [->|]; [now vm_compute in E | reflexivity]. }
    assert (Hk : N.eqb c 91 = false).
    { destruct (N.eqb_spec c 91) as [->|]; [now vm_compute in E | reflexivity]. }
    rewrite Hb, Hk. cbn [nth_error].
    rewrite star_lookahead by exact Hn.
    cbn [app]. f_equal. exact IH.
Qed.

Lemma wrappedPattern_shape (i : nat) :
  wrappedPattern i
  = literally openTag
      ++ [Many (NotChar gt); One (Char gt); Many Space]
      ++ literally (placeholder i)
      ++ [Many Space]
      ++ literally closeTag.
Proof.
  unfold wrappedPattern, compile. rewrite escapeRegExp_chars.
  change (compileFrom 0 (js "<pre><code[^>]*>\s*"
            ++ flat_map escapeRegExpChar (placeholder i) ++ js "\s*</code></pre>"))
    with (literally openTag
            ++ [Many (NotChar gt); One (Char gt); Many Space]
            ++ compileFrom 0 (flat_map escapeRegExpChar (placeholder i)
                                ++ js "\s*</code></pre>")).
  rewrite compile_escaped by reflexivity.
  reflexivity.
Qed.

(** ** The matcher on literals and on starred classes *)

Lemma matchHere_literally (p : jsstring) (re : regexp) (s : jsstring) :
  matchHere (literally p ++ re) (p ++ s)
  = option_map (Nat.add (length p)) (matchHere re s).
Proof.
  induction p as [|c p IH]; cbn [literally map app matchHere length].
  - now destruct (matchHere re s).
  - cbn [accepts]. rewrite N.eqb_refl. fold (literally p). rewrite IH.
    now destruct (matchHere re s).
Qed.

Lemma matchHere_literally_inv (p : jsstring) (re : regexp) (s : jsstring) (n : nat) :
  matchHere (literally p ++ re) s = Some n ->
  exists s' n', s = p ++ s' /\ matchHere re s' = Some n' /\ n = length p + n'.
Proof.
  revert s n; induction p as [|c p IH]; intros s n H.
  - now exists s, n.
  - cbn [literally map app matchHere] in H. destruct s as [|d s]; [discriminate|].
    cbn [accepts] in H. destruct (N.eqb_spec c d) as [<-|]; [|discriminate].
    fold (literally p) in H.
    destruct (matchHere (literally p ++ re) s) as [m|] eqn:E; [|discriminate].
    injection H as <-. destruct (IH _ _ E) as (s' & n' & -> & Hre & ->).
    now exists s', n'.
Qed.

Lemma matchHere_Many_cons (a : atom) (re : regexp) (c : N) (s : jsstring) :
  matchHere (Many a :: re) (c :: s)
  = if accepts a c then
      match matchHere (Many a :: re) s with
      | Some n => Some (S n)
      | None => matchHere re (c :: s)
      end
    else matchHere re (c :: s).
Proof. reflexivity. Qed.

Lemma matchHere_Many_nil (a : atom) (re : regexp) :
  matchHere (Many a :: re) [] = matchHere re [].
Proof. reflexivity. Qed.

Lemma matchHere_Many_inv (a : atom) (re : regexp) (s : jsstring) (n : nat) :
  matchHere (Many a :: re) s = Some n ->
  exists x s' n',
    s = x ++ s' /\ forallb (accepts a) x = true
    /\ matchHere re s' = Some n' /\ n = length x + n'.
Proof.
  revert n; induction s as [|c s IH]; intros n H.
  - rewrite matchHere_Many_nil in H. now exists [], [], n.
  - rewrite matchHere_Many_cons in H.
    destruct (accepts a c) eqn:Ea; [|now exists [], (c :: s), n].
    destruct (matchHere (Many a :: re) s) as [m|] eqn:E.
    + injection H as <-. destruct (IH _ eq_refl) as (x & s' & n' & -> & Hx & Hre & ->).
      exists (c :: x), s', n'. cbn. now rewrite Ea, Hx.
    + now exists [], (c :: s), n.
Qed.

Lemma matchHere_Many_greedy (a : atom) (re : regexp) (x s : jsstring) (n : nat) :
  forallb (accepts a) x = true -> stops a s ->
  matchHere re s = Some n ->
  matchHere (Many a :: re) (x ++ s) = Some (length x + n).
Proof.
  intros Hx Hs Hre. induction x as [|c x IH].
  - cbn [app length]. destruct s as [|d s]; [exact Hre|].
    rewrite matchHere_Many_cons. cbn in Hs. now rewrite Hs.
  - cbn [forallb] in Hx. apply andb_true_iff in Hx as [Hc Hx].
    cbn [app]. rewrite matchHere_Many_cons, Hc, (IH Hx). reflexivity.
Qed.

(** ** The scan of replace *)

Lemma getSubstitution_plain (matched str : jsstring) (position : nat)
    (replacement : jsstring) :
  substitutes replacement = false ->
  getSubstitution matched str position replacement = replacement.
Proof.
  induction replacement as [|c r IH]; intros H; [reflexivity|].
  cbn [substitutes] in H. apply orb_false_iff in H as [Hc Hr].
  cbn [getSubstitution]. rewrite (IH Hr).
  destruct (N.eqb c dollar); [|reflexivity].
  destruct r as [|d r']; [reflexivity|].
  cbn [andb] in Hc.
  apply orb_false_iff in Hc as [Hc Ha]. apply orb_false_iff in Hc as [Hc Hb].
  apply orb_false_iff in Hc as [Hd Hm].
  now rewrite Hd, Hm, Hb, Ha.
Qed.

Lemma replaceFrom_skip (re : regexp) (rep str : jsstring) (x r : jsstring) :
  forall pos,
    replaceFrom re rep str pos (length x) (x ++ r)
    = replaceFrom re rep str (pos + length x) 0 r.
Proof.
  induction x as [|c x IH]; intros pos; cbn [length app].
  - now rewrite Nat.add_0_r.
  - cbn [replaceFrom]. rewrite IH. f_equal. lia.
Qed.

(** Where the pattern matches nowhere, the scan copies. *)
Lemma replaceFrom_miss (re : regexp) (rep str : jsstring) (x r : jsstring) :
  (forall x1 t, x = x1 ++ t -> t <> [] -> matchHere re (t ++ r) = None) ->
  forall pos,
    replaceFrom re rep str pos 0 (x ++ r)
    = x ++ replaceFrom re rep str (pos + length x) 0 r.
Proof.
  induction x as [|c x IH]; intros H pos; cbn [length app].
  - now rewrite Nat.add_0_r.
  - cbn [replaceFrom].
    assert (H0 : matchHere re (c :: x ++ r) = None)
      by (apply (H [] (c :: x) eq_refl); discriminate).
    rewrite H0, IH.
    + replace (S pos + length x) with (pos + S (length x)) by lia. reflexivity.
    + intros x1 t -> Ht. now apply (H (c :: x1) t).
Qed.

(** Where it matches, the match is replaced and the scan goes on behind it. *)
Lemma replaceFrom_hit (re : regexp) (rep str : jsstring) (w r : jsstring) (pos : nat) :
  w <> [] -> matchHere re (w ++ r) = Some (length w) ->
  replaceFrom re rep str pos 0 (w ++ r)
  = getSubstitution w str pos rep
      ++ replaceFrom re rep str (pos + length w) 0 r.
Proof.
  destruct w as [|c w]; [easy|]. intros _ H.
  cbn [app replaceFrom]. cbn [app] in H. rewrite H. cbn [length].
  change (c :: w ++ r) with ((c :: w) ++ r).
  change (S (length w)) with (length (c :: w)).
  rewrite firstn_app, Nat.sub_diag, firstn_all, firstn_O, app_nil_r.
  cbn [length]. rewrite replaceFrom_skip.
  replace (S pos + length w) with (pos + S (length w)) by lia. reflexivity.
Qed.

Lemma replaceAll_no_match (re : regexp) (rep s : jsstring) :
  (forall x1 t, s = x1 ++ t -> matchHere re t = None) ->
  replaceAll re rep s = s.
Proof.
  intros H. unfold replaceAll.
  rewrite <- (app_nil_r s) at 2. rewrite replaceFrom_miss.
  - cbn [replaceFrom]. rewrite (H s [] (eq_sym (app_nil_r s))).
    now rewrite app_nil_r.
  - intros x1 t -> _. rewrite app_nil_r. now apply (H x1).
Qed.

(** ** The placeholder *)

Lemma js_injective (s t : string) : js s = js t -> s = t.
Proof.
  unfold js. intros H.
  rewrite <- (string_of_list_ascii_of_string s), <- (string_of_list_ascii_of_string t).
  f_equal. revert H. generalize (list_ascii_of_string s) (list_ascii_of_string t).
  intros l; induction l as [|a l IH]; intros [|b l']; cbn; try easy.
  intros [= Hab Hl]. f_equal; [|now apply IH].
  rewrite <- (ascii_N_embedding a), <- (ascii_N_embedding b). now rewrite Hab.
Qed.

Lemma decimal_injective (i j : nat) : decimal i = decimal j -> i = j.
Proof.
  unfold decimal. intros H. apply js_injective in H.
  assert (E : Some (Nat.to_uint i) = Some (Nat.to_uint j))
    by (rewrite <- !NilEmpty.usu; now rewrite H).
  injection E as E.
  rewrite <- (Unsigned.of_to i), <- (Unsigned.of_to j). now rewrite E.
Qed.

Lemma decimal_digits (i : nat) : forallb isDigit (decimal i) = true.
Proof.
  unfold decimal. generalize (Nat.to_uint i).
  intros d; induction d; cbn; try reflexivity; exact IHd.
Qed.

Lemma placeholder_injective (i j : nat) : placeholder i = placeholder j -> i = j.
Proof.
  unfold placeholder. intros H.
  apply app_inv_head, app_inv_tail in H. now apply decimal_injective.
Qed.

(** A placeholder is [<!] and then no further [<]. *)
Lemma placeholder_tag (i : nat) :
  exists b, placeholder i = lt :: bang :: b /\ ~ In lt b.
Proof.
  exists (js "--MERMAID_PLACEHOLDER_" ++ decimal i ++ js "-->").
  split; [reflexivity|].
  rewrite !in_app_iff. intros [H | [H | H]].
  - vm_compute in H. intuition discriminate.
  - pose proof (decimal_digits i) as Hd. rewrite forallb_forall in Hd.
    apply Hd in H. discriminate H.
  - vm_compute in H. intuition discriminate.
Qed.

Lemma placeholder_head (i : nat) : exists b, placeholder i = lt :: b.
Proof. destruct (placeholder_tag i) as (b & -> & _). now eexists. Qed.

(** ** Matches of the wrapper pattern *)

Lemma matchHere_One (a : atom) (re : regexp) (s : jsstring) (n : nat) :
  matchHere (One a :: re) s = Some n ->
  exists c s' n', s = c :: s' /\ accepts a c = true
                  /\ matchHere re s' = Some n' /\ n = S n'.
Proof.
  destruct s as [|c s]; cbn [matchHere]; [discriminate|].
  destruct (accepts a c) eqn:E; [|discriminate].
  destruct (matchHere re s) as [m|] eqn:Em; [|discriminate].
  intros [= <-]. now exists c, s, m.
Qed.

Lemma matchHere_One_cons (a : atom) (re : regexp) (c : N) (s : jsstring) :
  matchHere (One a :: re) (c :: s)
  = if accepts a c then option_map S (matchHere re s) else None.
Proof. reflexivity. Qed.

Lemma wrapper_match_inv (i : nat) (s : jsstring) (n : nat) :
  matchHere (wrappedPattern i) s = Some n ->
  exists a w1 w2 rest,
    s = openTag ++ a ++ gt :: w1 ++ placeholder i ++ w2 ++ closeTag ++ rest
    /\ forallb (accepts (NotChar gt)) a = true
    /\ forallb isSpace w1 = true
    /\ forallb isSpace w2 = true
    /\ n = length (openTag ++ a ++ gt :: w1 ++ placeholder i ++ w2 ++ closeTag).
Proof.
  rewrite wrappedPattern_shape. intros H.
  apply matchHere_literally_inv in H as (s1 & n1 & -> & H & ->).
  cbn [app] in H.
  apply matchHere_Many_inv in H as (a & s2 & n2 & -> & Ha & H & ->).
  apply matchHere_One in H as (c & s3 & n3 & -> & Hc & H & ->).
  cbn [accepts] in Hc. apply N.eqb_eq in Hc as <-.
  apply matchHere_Many_inv in H as (w1 & s4 & n4 & -> & Hw1 & H & ->).
  apply matchHere_literally_inv in H as (s5 & n5 & -> & H & ->).
  cbn [app] in H.
  apply matchHere_Many_inv in H as (w2 & s6 & n6 & -> & Hw2 & H & ->).
  rewrite <- (app_nil_r (literally closeTag)) in H.
  apply matchHere_literally_inv in H as (rest & n7 & -> & H & ->).
  cbn [matchHere] in H. injection H as <-.
  exists a, w1, w2, rest.
  split; [reflexivity|]. split; [exact Ha|]. split; [exact Hw1|].
  split; [exact Hw2|].
  rewrite !length_app. cbn [length]. rewrite !length_app. lia.
Qed.

Lemma wrapper_match_intro (i : nat) (a w1 w2 rest : jsstring) :
  forallb (accepts (NotChar gt)) a = true ->
  forallb isSpace w1 = true ->
  forallb isSpace w2 = true ->
  matchHere (wrappedPattern i)
    (openTag ++ a ++ gt :: w1 ++ placeholder i ++ w2 ++ closeTag ++ rest)
  = Some (length (openTag ++ a ++ gt :: w1 ++ placeholder i ++ w2 ++ closeTag)).
Proof.
  intros Ha Hw1 Hw2. rewrite wrappedPattern_shape.
  rewrite matchHere_literally. cbn [app].
  rewrite (@matchHere_Many_greedy (NotChar gt) _ a _
             (S (length w1 + (length (placeholder i) + (length w2 + length closeTag))))
             Ha).
  - cbn [option_map]. f_equal.
    rewrite !length_app. cbn [length]. rewrite !length_app. lia.
  - reflexivity.
  - rewrite matchHere_One_cons. cbn [accepts]. rewrite N.eqb_refl.
    rewrite (@matchHere_Many_greedy Space _ w1 _
               (length (placeholder i) + (length w2 + length closeTag)) Hw1).
    + reflexivity.
    + destruct (placeholder_head i) as [b ->]. reflexivity.
    + rewrite matchHere_literally. cbn [app].
      rewrite (@matchHere_Many_greedy Space _ w2 _ (length closeTag) Hw2).
      * reflexivity.
      * reflexivity.
      * rewrite <- (app_nil_r (literally closeTag)), matchHere_literally.
        cbn. reflexivity.
Qed.

(** A full match of [w] is still found when text follows [w]. *)
Lemma wrapper_match_extends (i : nat) (w r : jsstring) :
  matchHere (wrappedPattern i) w = Some (length w) ->
  matchHere (wrappedPattern i) (w ++ r) = Some (length w).
Proof.
  intros H. destruct (wrapper_match_inv _ _ H) as (a & w1 & w2 & rest & E & Ha & H1 & H2 & Hn).
  assert (rest = []) as ->.
  { apply (f_equal (@length N)) in E. rewrite Hn in E.
    rewrite !length_app in E. cbn [length] in E. rewrite !length_app in E.
    destruct rest; [reflexivity | cbn [length] in E; lia]. }
  rewrite Hn, E. rewrite app_nil_r.
  repeat (rewrite <- app_assoc; cbn [app]).
  now apply wrapper_match_intro.
Qed.

(** ** A string that occurs once *)

Lemma count_two (p s u v u' v' : jsstring) :
  s = u ++ p ++ v -> s = u' ++ p ++ v' -> length u < length u' ->
  2 <= count p s.
Proof.
  revert s u'; induction u as [|c u IH]; intros s u' E E' Hl.
  - destruct u' as [|c' u']; [cbn in Hl; lia|].
    cbn [app] in E. subst s. cbn [app] in E'.
    pose proof (prefixb_app p v) as Hp. rewrite E' in Hp.
    rewrite E'. cbn [count]. rewrite Hp.
    pose proof (count_occurrence p u' v'). lia.
  - destruct u' as [|c' u']; [cbn in Hl; lia|].
    subst s. cbn [app] in E'. injection E' as _ E'.
    cbn [app count length] in *.
    specialize (IH _ u' eq_refl E' ltac:(lia)). lia.
Qed.

Lemma app_same_length (u u' x x' : jsstring) :
  length u = length u' -> u ++ x = u' ++ x' -> u = u' /\ x = x'.
Proof.
  revert u'; induction u as [|c u IH]; intros [|c' u'] Hl E;
    try discriminate Hl; [now split|].
  cbn in E, Hl. injection E as -> E. injection Hl as Hl.
  destruct (IH _ Hl E) as [-> ->]. now split.
Qed.

Lemma occurrence_unique (p s u v u' v' : jsstring) :
  count p s <= 1 -> s = u ++ p ++ v -> s = u' ++ p ++ v' -> u = u'.
Proof.
  intros Hc E E'.
  destruct (Nat.lt_trichotomy (length u) (length u')) as [Hl | [Hl | Hl]].
  - pose proof (count_two _ _ _ _ _ E E' Hl). lia.
  - rewrite E in E'. now destruct (app_same_length _ _ _ _ Hl E').
  - pose proof (count_two _ _ _ _ _ E' E Hl). lia.
Qed.

Lemma last_split_unique (c : N) (x y x' y' : jsstring) :
  ~ In c y -> ~ In c y' -> x ++ c :: y = x' ++ c :: y' -> x = x' /\ y = y'.
Proof.
  revert x'; induction x as [|d x IH]; intros [|d' x'] Hy Hy' E; cbn [app] in E.
  - now injection E as ->.
  - injection E as <- ->. exfalso. apply Hy. apply in_or_app. right. now left.
  - injection E as -> <-. exfalso. apply Hy'. apply in_or_app. right. now left.
  - injection E as -> E. destruct (IH _ Hy Hy' E) as [-> ->]. now split.
Qed.

Lemma notgt_no_gt (a : jsstring) :
  forallb (accepts (NotChar gt)) a = true -> ~ In gt a.
Proof.
  rewrite forallb_forall. intros H Hin. specialize (H _ Hin).
  cbn in H. discriminate H.
Qed.

Lemma spaces_no_gt (w : jsstring) : forallb isSpace w = true -> ~ In gt w.
Proof.
  rewrite forallb_forall. intros H Hin. specialize (H _ Hin). discriminate H.
Qed.

(** Two wrappers that end at the same place begin at the same place. *)
Lemma wrapper_start_unique (t a w1 a' w1' : jsstring) :
  forallb (accepts (NotChar gt)) a = true -> forallb isSpace w1 = true ->
  forallb (accepts (NotChar gt)) a' = true -> forallb isSpace w1' = true ->
  t ++ openTag ++ a ++ gt :: w1 = openTag ++ a' ++ gt :: w1' ->
  t = [].
Proof.
  intros Ha Hw Ha' Hw' E.
  rewrite !app_assoc in E.
  apply last_split_unique in E as [E _]; try now apply spaces_no_gt.
  change openTag with (js "<pre" ++ gt :: js "<code") in E.
  rewrite <- !app_assoc in E. cbn [app] in E.
  change (js "<pre" ++ gt :: js "<code" ++ a')
    with (js "<pre" ++ gt :: (js "<code" ++ a')) in E.
  rewrite (app_assoc t) in E.
  apply last_split_unique in E as [E _].
  - apply (f_equal (@length N)) in E. rewrite length_app in E.
    destruct t; [reflexivity | cbn [length] in E; lia].
  - intros H. apply in_app_or in H as [H|H].
    + vm_compute in H. intuition discriminate.
    + now apply (notgt_no_gt _ Ha).
  - intros H. apply in_app_or in H as [H|H].
    + vm_compute in H. intuition discriminate.
    + now apply (notgt_no_gt _ Ha').
Qed.

Lemma wrappedPattern_nonempty (i : nat) : matchHere (wrappedPattern i) [] = None.
Proof. now rewrite wrappedPattern_shape. Qed.

(** One turn of the loop, on a string in which the placeholder occurs once,
    inside a wrapper: the wrapper is replaced and nothing else. *)
Lemma replaceAll_wrapper (i : nat) (pre w post d : jsstring) :
  matchHere (wrappedPattern i) w = Some (length w) ->
  count (placeholder i) (pre ++ w ++ post) <= 1 ->
  substitutes d = false ->
  replaceAll (wrappedPattern i) d (pre ++ w ++ post) = pre ++ d ++ post.
Proof.
  intros Hw Hc Hd. unfold replaceAll.
  destruct (wrapper_match_inv _ _ Hw) as (a & w1 & w2 & rest & Ew & Ha & H1 & H2 & Hn).
  assert (rest = []) as ->.
  { apply (f_equal (@length N)) in Ew. rewrite Hn in Ew.
    rewrite !length_app in Ew. cbn [length] in Ew. rewrite !length_app in Ew.
    destruct rest; [reflexivity | cbn [length] in Ew; lia]. }
  rewrite app_nil_r in Ew.
  assert (Hne : w <> []) by (rewrite Ew; discriminate).
  rewrite replaceFrom_miss.
  - rewrite replaceFrom_hit; [|exact Hne | now apply wrapper_match_extends].
    rewrite getSubstitution_plain by assumption.
    rewrite <- (app_nil_r post) at 2. rewrite replaceFrom_miss.
    + cbn [replaceFrom]. rewrite wrappedPattern_nonempty.
      now rewrite !app_nil_r.
    + intros x1 t Ep Ht. rewrite app_nil_r.
      destruct (matchHere (wrappedPattern i) t) as [n|] eqn:Em; [exfalso|reflexivity].
      destruct (wrapper_match_inv _ _ Em) as (a' & w1' & w2' & rest' & -> & _).
      assert (E : (pre ++ openTag ++ a ++ gt :: w1)
                  = (pre ++ w ++ x1 ++ openTag ++ a' ++ gt :: w1')).
      { apply (@occurrence_unique (placeholder i) (pre ++ w ++ post) _
                 (w2 ++ closeTag ++ post) _ (w2' ++ closeTag ++ rest') Hc).
        - rewrite Ew. repeat (rewrite <- ?app_assoc; cbn [app]). reflexivity.
        - rewrite Ep. repeat (rewrite <- ?app_assoc; cbn [app]). reflexivity. }
      apply (f_equal (@length N)) in E. rewrite Ew in E.
      destruct (placeholder_head i) as [b Eb]. rewrite Eb in E.
      repeat (rewrite ?length_app in E; cbn [length] in E). lia.
  - intros x1 t Ep Ht.
    destruct (matchHere (wrappedPattern i) (t ++ w ++ post)) as [n|] eqn:Em;
      [exfalso|reflexivity].
    destruct (wrapper_match_inv _ _ Em) as (a' & w1' & w2' & rest' & Et & Ha' & H1' & _).
    apply Ht.
    apply (@wrapper_start_unique t a w1 a' w1'); try assumption.
    apply (app_inv_head x1).
    apply (@occurrence_unique (placeholder i) (pre ++ w ++ post) _
             (w2 ++ closeTag ++ post) _ (w2' ++ closeTag ++ rest') Hc).
    + rewrite Ep, Ew. repeat (rewrite <- ?app_assoc; cbn [app]). reflexivity.
    + rewrite Ep. rewrite <- app_assoc, Et.
      repeat (rewrite <- ?app_assoc; cbn [app]). reflexivity.
Qed.

(** ** The container element *)

Lemma mermaidDiv_parts (code : jsstring) :
  mermaidDiv code = divOpen ++ escapeHtml code ++ divClose.
Proof.
  unfold mermaidDiv, divOpen, containerOpen. now rewrite <- !app_assoc.
Qed.

Lemma escapeHtml_no_lt (text : jsstring) : ~ In lt (escapeHtml text).
Proof.
  rewrite escapeHtml_chars, in_flat_map. intros (c & _ & H).
  unfold escapeChar in H.
  destruct (N.eqb_spec c amp); [vm_compute in H; intuition discriminate|].
  destruct (N.eqb_spec c lt); [vm_compute in H; intuition discriminate|].
  destruct (N.eqb_spec c gt); [vm_compute in H; intuition discriminate|].
  destruct (N.eqb_spec c quot); [vm_compute in H; intuition discriminate|].
  destruct H as [H|[]]. congruence.
Qed.

Lemma count_without_head (c : N) (b s : jsstring) :
  ~ In c s -> count (c :: b) s = 0.
Proof.
  induction s as [|d s IH]; intros H; [reflexivity|].
  cbn [count prefixb].
  replace (N.eqb c d) with false.
  - cbn [andb]. rewrite IH; [reflexivity|]. intros Hs; apply H; now right.
  - symmetry. apply N.eqb_neq. intros ->. apply H. now left.
Qed.

(** No placeholder starts inside a container element. *)
Lemma placeholder_not_in_mermaidDiv (i : nat) (code y : jsstring) :
  startsIn (placeholder i) (mermaidDiv code) y = 0.
Proof.
  destruct (placeholder_tag i) as (b & -> & Hb).
  rewrite mermaidDiv_parts, !startsIn_app.
  replace (startsIn (lt :: bang :: b) divOpen ((escapeHtml code ++ divClose) ++ y))
    with 0 by (vm_compute; reflexivity).
  replace (startsIn (lt :: bang :: b) divClose y) with 0 by (vm_compute; reflexivity).
  change (divClose ++ y) with (lt :: tl divClose ++ y).
  rewrite startsIn_before_lt.
  - rewrite count_without_head; [reflexivity | apply escapeHtml_no_lt].
  - intros [H|H]; [discriminate H | now apply Hb].
Qed.

(** Putting a container in the place of a code block adds no occurrence of
    a placeholder. *)
Lemma count_after_replacement (i : nat) (pre w post code : jsstring) :
  (exists r, w = lt :: r) ->
  count (placeholder i) (pre ++ mermaidDiv code ++ post)
  <= count (placeholder i) (pre ++ w ++ post).
Proof.
  intros [r ->]. rewrite !count_app. rewrite placeholder_not_in_mermaidDiv.
  destruct (placeholder_tag i) as (b & E & Hb).
  assert (Hd : exists r', mermaidDiv code ++ post = lt :: r')
    by (eexists; rewrite mermaidDiv_parts; reflexivity).
  destruct Hd as [r' ->]. rewrite E. cbn [app].
  rewrite !startsIn_before_lt; [lia| |];
    intros [H|H]; try discriminate H; now apply Hb.
Qed.

(** ** The loop over the diagram blocks *)

Section Reinjection.

Context {L : Libraries}.

Lemma mixed_none (ts : list token) (sources : list jsstring) :
  mixed 0 ts sources = parser ts.
Proof.
  revert sources; induction ts as [|t ts IH]; intros sources; [reflexivity|].
  cbn [mixed]. unfold parser. cbn [map concat]. fold (parser ts).
  destruct (isMermaid t); now rewrite IH.
Qed.

Lemma mixed_all (ts : list token) (sources : list jsstring) :
  length (filter isMermaid ts) = length sources ->
  mixed (length sources) ts sources = withContainers ts sources.
Proof.
  revert sources; induction ts as [|t ts IH]; intros sources Hl; [reflexivity|].
  cbn [mixed withContainers filter] in *.
  destruct (isMermaid t).
  - destruct sources as [|src sources]; [discriminate Hl|].
    cbn [length] in *. rewrite IH by lia. reflexivity.
  - now rewrite IH.
Qed.

(** Before turn [j] the [j]-th wrapper is still in the HTML; the turn is to
    put the [j]-th container in its place. *)
Lemma mixed_split (ts : list token) :
  forall (j : nat) (sources : list jsstring),
    length (filter isMermaid ts) = length sources ->
    j < length sources ->
    exists pre w src post,
      nth_error (wrappers ts) j = Some w
      /\ nth_error sources j = Some src
      /\ mixed j ts sources = pre ++ w ++ post
      /\ mixed (S j) ts sources = pre ++ mermaidDiv src ++ post.
Proof.
  induction ts as [|t ts IH]; intros j sources Hl Hj.
  - cbn in Hl. lia.
  - unfold wrappers in *. cbn [mixed filter] in *.
    destruct (isMermaid t) eqn:Et.
    + destruct sources as [|src sources]; [discriminate Hl|].
      cbn [length map] in *. destruct j as [|j].
      * exists [], (renderToken t), src, (mixed 0 ts sources).
        cbn. repeat split; reflexivity.
      * destruct (IH j sources) as (pre & w & s & post & Hw & Hs & E1 & E2);
          [lia | lia |].
        exists (mermaidDiv src ++ pre), w, s, post.
        cbn [nth_error]. rewrite E1, E2, <- !app_assoc. now repeat split.
    + destruct (IH j sources Hl Hj) as (pre & w & s & post & Hw & Hs & E1 & E2).
      exists (renderToken t ++ pre), w, s, post.
      rewrite E1, E2, <- !app_assoc. now repeat split.
Qed.

Lemma walked_diagrams (ts : list token) (i : nat) :
  length (filter isMermaid (walked i ts)) = length (mermaidSources ts).
Proof.
  revert i; induction ts as [|t ts IH]; intros i; [reflexivity|].
  destruct t as [lang text escaped | rendered]; cbn [walked mermaidSources].
  - destruct (isMermaid (CodeToken lang text escaped)) eqn:E;
      cbn [filter]; rewrite isMermaid_updateToken, E; cbn [length]; now rewrite IH.
  - cbn [filter isMermaid]. apply IH.
Qed.

Lemma numberedFrom_index (i : nat) (sources : list jsstring) :
  map index (numberedFrom i sources) = seq i (length sources).
Proof.
  revert i; induction sources as [|s l IH]; intros i; cbn; [easy | now rewrite IH].
Qed.

Lemma numberedFrom_code (i : nat) (sources : list jsstring) :
  map code (numberedFrom i sources) = sources.
Proof.
  revert i; induction sources as [|s l IH]; intros i; cbn; [easy | now rewrite IH].
Qed.

(** The turns [j], [j + 1], ... of the loop, from the HTML in which the
    first [j] wrappers are replaced. *)
Lemma reinject_all (ts : list token) (sources : list jsstring) :
  length (filter isMermaid ts) = length sources ->
  (forall k w, nth_error (wrappers ts) k = Some w ->
               matchHere (wrappedPattern k) w = Some (length w)) ->
  (forall src, In src sources -> substitutes (mermaidDiv src) = false) ->
  forall done rest,
    sources = done ++ rest ->
    (forall k, k < length sources ->
               count (placeholder k) (mixed (length done) ts sources) <= 1) ->
    fold_left reinject (numberedFrom (length done) rest)
      (mixed (length done) ts sources)
    = mixed (length sources) ts sources.
Proof.
  intros Hl Hw Hd done rest. revert done.
  induction rest as [|src rest IH]; intros done E Hc.
  - rewrite app_nil_r in E. subst done. reflexivity.
  - cbn [numberedFrom fold_left].
    assert (Hj : length done < length sources)
      by (rewrite E, length_app; cbn [length]; lia).
    destruct (@mixed_split ts (length done) sources Hl Hj)
      as (pre & w & s & post & Ew & Es & E1 & E2).
    assert (s = src) as ->.
    { rewrite E, nth_error_app2, Nat.sub_diag in Es by lia. now injection Es. }
    assert (Hm := Hw _ _ Ew).
    assert (Hstep : reinject (mixed (length done) ts sources)
                      {| index := length done; code := src |}
                    = mixed (S (length done)) ts sources).
    { unfold reinject. cbn [index code]. rewrite E1, E2.
      apply replaceAll_wrapper.
      - exact Hm.
      - rewrite <- E1. now apply Hc.
      - apply Hd. rewrite E. apply in_or_app. right. now left. }
    rewrite Hstep.
    specialize (IH (done ++ [src])).
    rewrite length_app, Nat.add_1_r in IH. apply IH.
    + now rewrite <- app_assoc.
    + intros k Hk. rewrite E2.
      etransitivity; [apply count_after_replacement with (w := w)|].
      * destruct (wrapper_match_inv _ _ Hm) as (a & w1 & w2 & r & -> & _).
        eexists. reflexivity.
      * rewrite <- E1. now apply Hc.
Qed.

(** The container tag occurs once in a container element. *)
Lemma containerOpen_in_mermaidDiv (code y : jsstring) :
  startsIn containerOpen (mermaidDiv code) y = 1.
Proof.
  rewrite mermaidDiv_parts, !startsIn_app.
  replace (startsIn containerOpen divOpen ((escapeHtml code ++ divClose) ++ y))
    with 1 by (vm_compute; reflexivity).
  replace (startsIn containerOpen divClose y) with 0 by (vm_compute; reflexivity).
  change (divClose ++ y) with (lt :: tl divClose ++ y).
  change containerOpen with (lt :: tl containerOpen).
  rewrite startsIn_before_lt.
  - rewrite count_without_head; [reflexivity | apply escapeHtml_no_lt].
  - vm_compute. intuition discriminate.
Qed.

Lemma startsIn_through (b x z r r' : jsstring) :
  ~ In lt b ->
  startsIn (lt :: b) x (z ++ lt :: r) = startsIn (lt :: b) x (z ++ lt :: r').
Proof.
  intros Hb. induction x as [|c x IH]; [reflexivity|].
  cbn [startsIn app prefixb]. rewrite IH.
  now rewrite !app_assoc, !prefixb_before_lt.
Qed.

(** Up to the first diagram, the HTML with containers is the HTML with code
    blocks, and both go on with a tag. *)
Lemma renderings_agree (ts : list token) :
  (forall t, In t ts -> isMermaid t = true -> exists r, renderToken t = lt :: r) ->
  forall sources,
    length (filter isMermaid ts) = length sources ->
    parser ts = withContainers ts sources
    \/ exists z r r', parser ts = z ++ lt :: r
                      /\ withContainers ts sources = z ++ lt :: r'.
Proof.
  induction ts as [|t ts IH]; intros Hw sources Hl; [now left|].
  unfold parser in *. cbn [map concat withContainers filter] in *.
  destruct (isMermaid t) eqn:Et.
  - destruct sources as [|src sources]; [discriminate Hl|].
    destruct (Hw t (or_introl eq_refl) Et) as [r ->].
    right. exists []. rewrite mermaidDiv_parts. cbn [app]. do 2 eexists.
    split; reflexivity.
  - destruct (IH (fun t' H => Hw t' (or_intror H)) sources Hl)
      as [E | (z & r & r' & E1 & E2)].
    + left. now rewrite E.
    + right. exists (renderToken t ++ z), r, r'.
      rewrite E1, E2, <- !app_assoc. now split.
Qed.

Lemma containers_counted (ts : list token) :
  (forall t, In t ts -> isMermaid t = true -> exists r, renderToken t = lt :: r) ->
  forall sources,
    length (filter isMermaid ts) = length sources ->
    count containerOpen (parser ts) = 0 ->
    count containerOpen (withContainers ts sources) = length sources.
Proof.
  induction ts as [|t ts IH]; intros Hw sources Hl Hc.
  - destruct sources; [reflexivity | discriminate Hl].
  - unfold parser in Hc. cbn [map concat] in Hc. fold (parser ts) in Hc.
    rewrite count_app in Hc.
    cbn [withContainers filter] in *.
    destruct (isMermaid t) eqn:Et.
    + destruct sources as [|src sources]; [discriminate Hl|].
      rewrite count_app, containerOpen_in_mermaidDiv.
      rewrite (IH (fun t' H => Hw t' (or_intror H)) sources); cbn [length] in *; lia.
    + rewrite count_app.
      rewrite (IH (fun t' H => Hw t' (or_intror H)) sources Hl) by lia.
      assert (E : startsIn containerOpen (renderToken t) (withContainers ts sources)
                  = startsIn containerOpen (renderToken t) (parser ts)).
      { destruct (@renderings_agree ts (fun t' H => Hw t' (or_intror H)) sources Hl)
          as [E | (z & r & r' & E1 & E2)].
        - now rewrite E.
        - rewrite E1, E2. change containerOpen with (lt :: tl containerOpen).
          apply startsIn_through. vm_compute. intuition discriminate. }
      rewrite E. lia.
Qed.

Lemma matched_wrappers_are_tags (ts : list token) :
  (forall k w, nth_error (wrappers ts) k = Some w ->
               matchHere (wrappedPattern k) w = Some (length w)) ->
  forall t, In t ts -> isMermaid t = true -> exists r, renderToken t = lt :: r.
Proof.
  intros Hw t Ht Hm.
  assert (Hin : In (renderToken t) (wrappers ts)).
  { unfold wrappers. apply in_map, filter_In. now split. }
  apply In_nth_error in Hin as [k Hk].
  destruct (wrapper_match_inv _ _ (Hw _ _ Hk)) as (a & w1 & w2 & r & -> & _).
  eexists. reflexivity.
Qed.

(** C3, as the script has it.  The walk extracts one block per diagram
    fence, numbered 0 to N-1 in document order, with the fence contents as
    they are.  When every placeholder occurs once in the HTML that marked
    returns, every diagram code block is matched by its pattern, and no
    container text holds a substitution pattern of [replace], the final HTML
    is marked's with the [i]-th diagram code block replaced by the container
    element of the [i]-th source, escaped by [escapeHtml]; it has N
    container tags when marked's HTML has none of its own. *)
Theorem markdownToHtml_containers (tokens : list token) :
  exists tokens' st,
    walkTokens tokens initial = Some (tokens', st)
    /\ map index (mermaidBlocks st) = seq 0 (length (mermaidSources tokens))
    /\ map code (mermaidBlocks st) = mermaidSources tokens
    /\ ((forall k, k < length (mermaidSources tokens) ->
                   count (placeholder k) (parser tokens') = 1) ->
        (forall k w, nth_error (wrappers tokens') k = Some w ->
                     matchHere (wrappedPattern k) w = Some (length w)) ->
        (forall src, In src (mermaidSources tokens) ->
                     substitutes (mermaidDiv src) = false) ->
        markdownToHtml tokens
        = Some {| html := withContainers tokens' (mermaidSources tokens);
                  hasMermaid := 0 <? length (mermaidSources tokens) |}
        /\ (count containerOpen (parser tokens') = 0 ->
            count containerOpen (withContainers tokens' (mermaidSources tokens))
            = length (mermaidSources tokens))).
Proof.
  eexists. eexists. split; [apply walkTokens_walked|].
  cbn [mermaidBlocks initial mermaidIndex app].
  split; [apply numberedFrom_index|]. split; [apply numberedFrom_code|].
  intros Hc Hw Hd.
  pose proof (walked_diagrams tokens 0) as Hl. split.
  - rewrite markdownToHtml_returns. do 2 f_equal.
    rewrite <- mixed_all by exact Hl.
    rewrite <- (mixed_none (walked 0 tokens) (mermaidSources tokens)).
    apply (@reinject_all (walked 0 tokens) (mermaidSources tokens) Hl Hw Hd []
             (mermaidSources tokens) eq_refl).
    intros k Hk. cbn [length]. rewrite mixed_none, (Hc k Hk). lia.
  - apply containers_counted; [|exact Hl].
    now apply matched_wrappers_are_tags.
Qed.

End Reinjection.

(** On the document [twoDiagrams]: two fences, two containers, in order. *)
Lemma markdownToHtml_containers_witness :
  (forall k, k < length (mermaidSources twoDiagrams) ->
             count (placeholder k)
               (parser (L := reference) (walked (L := reference) 0 twoDiagrams)) = 1)
  /\ (forall src, In src (mermaidSources twoDiagrams) ->
                  substitutes (mermaidDiv src) = false)
  /\ markdownToHtml (L := reference) twoDiagrams
     = Some {| html := js "<h1>Flow</h1>" ++ nl
                         ++ mermaidDiv (js "graph TD; A-->B")
                         ++ js "<p>and then</p>" ++ nl
                         ++ mermaidDiv (js "graph LR; B-->C");
               hasMermaid := true |}
  /\ count containerOpen
       (js "<h1>Flow</h1>" ++ nl ++ mermaidDiv (js "graph TD; A-->B")
          ++ js "<p>and then</p>" ++ nl ++ mermaidDiv (js "graph LR; B-->C")) = 2.
Proof.
  assert (Hc : forall k, k < length (mermaidSources twoDiagrams) ->
                 count (placeholder k)
                   (parser (L := reference) (walked (L := reference) 0 twoDiagrams)) = 1).
  { intros [|[|k]] Hk; [reflexivity | reflexivity | cbn in Hk; lia]. }
  assert (Hd : forall src, In src (mermaidSources twoDiagrams) ->
                 substitutes (mermaidDiv src) = false).
  { intros src [<- | [<- | []]]; reflexivity. }
  split; [exact Hc|]. split; [exact Hd|].
  destruct (markdownToHtml_containers (L := reference) twoDiagrams)
    as (tokens' & st & Hwalk & _ & _ & H).
  rewrite walkTokens_walked in Hwalk. injection Hwalk as <- _.
  destruct (H Hc) as [E N]; [|exact Hd|].
  - intros [|[|k]] w Hw; try (destruct k; discriminate Hw);
      injection Hw as <-; reflexivity.
  - split; [rewrite E; reflexivity|]. exact (N eq_refl).
Defined.

(** C3, the claim as stated fails: the document has one diagram fence, whose
    code block is matched, and a raw HTML block that shows a placeholder in
    a code element; the final fragment has two diagram containers. *)
Lemma markdownToHtml_two_containers_for_one_fence :
  length (mermaidSources diagramThenRawHtml) = 1
  /\ (forall w, nth_error (wrappers (L := reference) (walked (L := reference) 0 diagramThenRawHtml)) 0
                = Some w ->
                matchHere (wrappedPattern 0) w = Some (length w))
  /\ exists r, markdownToHtml (L := reference) diagramThenRawHtml = Some r
               /\ count containerOpen (html r) = 2.
Proof.
  split; [reflexivity|]. split.
  - intros w [= <-]. reflexivity.
  - eexists. split; reflexivity.
Qed.

Section Tokens.

Context {L : Libraries}.

(** C2, as the script has it.  The token of a diagram block is a function of
    its index alone, whatever the fence contains; different indices give
    different tokens; and in one conversion the blocks carry the indices 0
    to N-1, so their tokens are pairwise different: blocks and tokens
    correspond one to one.  Nothing keeps a token apart from the text of
    the document. *)
Theorem placeholder_tokens :
  (forall text st,
     option_map fst (highlight text (js "mermaid") st)
     = Some (placeholder (mermaidIndex st)))
  /\ (forall i j, i <> j -> placeholder i <> placeholder j)
  /\ (forall tokens, exists tokens' st,
        walkTokens tokens initial = Some (tokens', st)
        /\ map (fun b => placeholder (index b)) (mermaidBlocks st)
           = map placeholder (seq 0 (length (mermaidSources tokens)))
        /\ NoDup (map placeholder (seq 0 (length (mermaidSources tokens))))).
Proof.
  split; [reflexivity|]. split.
  - intros i j Hne E. apply Hne. now apply placeholder_injective.
  - intros tokens. eexists. eexists. split; [apply walkTokens_walked|].
    cbn [mermaidBlocks initial mermaidIndex app]. split.
    + rewrite <- numberedFrom_index, map_map. reflexivity.
    + apply Injective_map_NoDup; [|apply seq_NoDup].
      intros i j. apply placeholder_injective.
Qed.

End Tokens.

(** On the tokens of the first two blocks. *)
Lemma placeholder_tokens_witness :
  0 <> 1 /\ placeholder 0 <> placeholder 1.
Proof.
  assert (H : 0 <> 1) by discriminate.
  split; [exact H|].
  exact (proj1 (proj2 (placeholder_tokens (L := reference))) 0 1 H).
Defined.

(** C2, the claim as stated fails: the token of the only diagram block of
    this document also stands in its raw HTML, so it occurs twice in the
    HTML that marked returns, and the loop turns the raw HTML into a second
    container of the same diagram. *)
Lemma placeholder_collides_with_raw_html :
  option_map (fun r => map index (mermaidBlocks (snd r)))
    (walkTokens (L := reference) rawHtmlThenDiagram initial) = Some [0]
  /\ includes (js "<pre><code><!--MERMAID_PLACEHOLDER_0--></code></pre>")
       (placeholder 0) = true
  /\ option_map (fun r => count (placeholder 0) (fst r))
       (parse (L := reference) rawHtmlThenDiagram initial) = Some 2
  /\ markdownToHtml (L := reference) rawHtmlThenDiagram
     = Some {| html := mermaidDiv (js "graph TD; A-->B") ++ nl
                         ++ mermaidDiv (js "graph TD; A-->B");
               hasMermaid := true |}.
Proof. repeat split. Qed.

(** C4, at a failing input: the label of the fence holds two pairs of dollar
    signs.  [escapeHtml] turns the quotes into entities and keeps the dollar
    signs, and the container holds the result with each pair reduced to one
    dollar sign. *)
Theorem mermaidDiv_dollar_signs :
  escapeHtml mathSource = js "graph LR; A[&quot;$$x^2$$&quot;]"
  /\ markdownToHtml (L := reference) mathLabel
     = Some {| html := divOpen ++ js "graph LR; A[&quot;$x^2$&quot;]" ++ divClose;
               hasMermaid := true |}
  /\ divOpen ++ js "graph LR; A[&quot;$x^2$&quot;]" ++ divClose
     <> mermaidDiv mathSource.
Proof.
  split; [reflexivity|]. split; [reflexivity|].
  vm_compute. discriminate.
Qed.

(** ** Unmatched wrappers *)

Lemma test_false (re : regexp) (s : jsstring) :
  test re s = false -> forall x1 t, s = x1 ++ t -> matchHere re t = None.
Proof.
  intros H x1. revert s H. induction x1 as [|c x1 IH]; intros s H t ->.
  - cbn [app] in H. destruct t; cbn [test] in H;
      destruct (matchHere re _); congruence.
  - cbn [app test] in H.
    destruct (matchHere re (c :: x1 ++ t)); [discriminate|].
    now apply (IH (x1 ++ t)).
Qed.

Section Unmatched.

Context {L : Libraries}.

Lemma reinject_no_match (html : jsstring) (b : block) :
  test (wrappedPattern (index b)) html = false -> reinject html b = html.
Proof.
  intros H. unfold reinject. apply replaceAll_no_match.
  now apply test_false.
Qed.

(** C5. A block whose pattern matches nowhere in the HTML when its turn
    comes is passed over: its turn returns the HTML as it is, with the
    placeholder where it was, and the loop gives what it gives without this
    block.  When no pattern matches, the HTML that marked returned is the
    final fragment.  Nothing is thrown: [markdownToHtml] returns, and the
    conversion goes on to assemble the document and to call [generatePdf]. *)
Theorem reinject_unmatched :
  (forall html b,
     test (wrappedPattern (index b)) html = false -> reinject html b = html)
  /\ (forall html before b after,
        test (wrappedPattern (index b)) (fold_left reinject before html) = false ->
        fold_left reinject (before ++ b :: after) html
        = fold_left reinject (before ++ after) html)
  /\ (forall html blocks,
        (forall b, In b blocks -> test (wrappedPattern (index b)) html = false) ->
        fold_left reinject blocks html = html)
  /\ (forall tokens cssContent outputPath, exists r,
        markdownToHtml tokens = Some r
        /\ convert tokens cssContent outputPath
           = generatePdf (buildHtmlDocument (html r) cssContent (hasMermaid r))
               outputPath (hasMermaid r)).
Proof.
  split; [exact reinject_no_match|]. split; [|split].
  - intros html before b after H.
    rewrite !fold_left_app. cbn [fold_left]. now rewrite reinject_no_match.
  - intros html blocks. induction blocks as [|b blocks IH]; intros H; [reflexivity|].
    cbn [fold_left]. rewrite reinject_no_match by (apply H; now left).
    apply IH. intros b' Hb'. apply H. now right.
  - intros tokens css out. eexists. split; [apply markdownToHtml_returns|].
    unfold convert. now rewrite markdownToHtml_returns.
Qed.

End Unmatched.

(** On a placeholder that stands in a paragraph. *)
Lemma reinject_unmatched_witness :
  test (wrappedPattern 0) unwrappedPlaceholder = false
  /\ reinject unwrappedPlaceholder {| index := 0; code := js "graph TD; A-->B" |}
     = js "<p><!--MERMAID_PLACEHOLDER_0--></p>".
Proof.
  assert (H : test (wrappedPattern (index {| index := 0; code := js "graph TD; A-->B" |}))
                unwrappedPlaceholder = false) by reflexivity.
  split; [exact H|].
  exact (proj1 (reinject_unmatched (L := reference)) unwrappedPlaceholder
           {| index := 0; code := js "graph TD; A-->B" |} H).
Defined.

(* ================================================================== *)
(** * Part III: further properties of the script *)
(* ================================================================== *)

(** ** escapeHtml *)

(** X1. The four replacements in a row come to one pass over the text: each
    code unit is rewritten once, by [escapeChar]; the [&] of an entity that a
    later replacement writes is not escaped again.  So escaping goes through
    concatenation. *)
Theorem escapeHtml_one_pass :
  (forall text, escapeHtml text = flat_map escapeChar text)
  /\ (forall s t, escapeHtml (s ++ t) = escapeHtml s ++ escapeHtml t)
  /\ escapeHtml [] = [].
Proof.
  split; [exact escapeHtml_chars|]. split; [|reflexivity].
  intros s t. rewrite !escapeHtml_chars. apply flat_map_app.
Qed.

Lemma escapeChar_cases (c : N) :
  (isHtmlSpecial c = false /\ escapeChar c = [c])
  \/ (isHtmlSpecial c = true
      /\ (escapeChar c = js "&amp;" \/ escapeChar c = js "&lt;"
          \/ escapeChar c = js "&gt;" \/ escapeChar c = js "&quot;")).
Proof.
  unfold escapeChar, isHtmlSpecial.
  destruct (N.eqb c amp); [right; split; [reflexivity | tauto]|].
  destruct (N.eqb c lt); [right; split; [reflexivity | tauto]|].
  destruct (N.eqb c gt); [right; split; [reflexivity | tauto]|].
  destruct (N.eqb c quot); [right; split; [reflexivity | tauto]|].
  now left.
Qed.

Lemma escapeChar_clean (c d : N) :
  In d (escapeChar c) -> d <> lt /\ d <> gt /\ d <> quot.
Proof.
  intros H. destruct (escapeChar_cases c) as [[Hs E] | [_ [E | [E | [E | E]]]]];
    rewrite E in H.
  - destruct H as [<- | []]. unfold isHtmlSpecial in Hs.
    repeat (apply orb_false_iff in Hs as [Hs ?]).
    repeat split; intros ->; discriminate.
  - vm_compute in H;
      repeat destruct H as [<- | H]; try destruct H; repeat split; discriminate.
  - vm_compute in H;
      repeat destruct H as [<- | H]; try destruct H; repeat split; discriminate.
  - vm_compute in H;
      repeat destruct H as [<- | H]; try destruct H; repeat split; discriminate.
  - vm_compute in H;
      repeat destruct H as [<- | H]; try destruct H; repeat split; discriminate.
Qed.

Lemma entitiesOnly_escapeChar (c : N) (rest : jsstring) :
  entitiesOnly rest = true -> entitiesOnly (escapeChar c ++ rest) = true.
Proof.
  intros Hr. unfold escapeChar.
  destruct (N.eqb_spec c amp); [jslit; cbn; exact Hr|].
  destruct (N.eqb_spec c lt); [jslit; cbn; exact Hr|].
  destruct (N.eqb_spec c gt); [jslit; cbn; exact Hr|].
  destruct (N.eqb_spec c quot); [jslit; cbn; exact Hr|].
  cbn [app entitiesOnly].
  rewrite (proj2 (N.eqb_neq c amp)) by assumption. exact Hr.
Qed.

(** X2. The escaped text has no angle bracket and no double quote, and every
    ampersand in it begins one of the entities [&amp;], [&lt;], [&gt;] or
    [&quot;]. *)
Theorem escapeHtml_output :
  forall text,
    ~ In lt (escapeHtml text) /\ ~ In gt (escapeHtml text)
    /\ ~ In quot (escapeHtml text)
    /\ entitiesOnly (escapeHtml text) = true.
Proof.
  intros text. rewrite escapeHtml_chars.
  repeat split.
  - intros H. apply in_flat_map in H as (c & _ & H).
    now destruct (escapeChar_clean _ _ H) as (? & _).
  - intros H. apply in_flat_map in H as (c & _ & H).
    now destruct (escapeChar_clean _ _ H) as (_ & ? & _).
  - intros H. apply in_flat_map in H as (c & _ & H).
    now destruct (escapeChar_clean _ _ H) as (_ & _ & ?).
  - induction text as [|c text IH]; [reflexivity|].
    cbn [flat_map]. now apply entitiesOnly_escapeChar.
Qed.

Lemma escapeChar_length (c : N) :
  (isHtmlSpecial c = false -> length (escapeChar c) = 1)
  /\ (isHtmlSpecial c = true -> 4 <= length (escapeChar c) <= 6).
Proof.
  destruct (escapeChar_cases c) as [[Hs E] | [Hs [E | [E | [E | E]]]]];
    rewrite E, Hs; split; intros H; try discriminate H; cbn; lia.
Qed.

Lemma escapeHtml_length (text : jsstring) :
  length text <= length (flat_map escapeChar text) <= 6 * length text
  /\ (existsb isHtmlSpecial text = true ->
      length text < length (flat_map escapeChar text)).
Proof.
  induction text as [|c text [IH1 IH2]]; [cbn; split; [lia | discriminate]|].
  cbn [flat_map existsb length]. rewrite length_app.
  destruct (escapeChar_length c) as [H0 H1].
  destruct (isHtmlSpecial c).
  - specialize (H1 eq_refl). split; [lia|]. intros _. lia.
  - specialize (H0 eq_refl). split; [lia|]. cbn [orb]. intros H.
    specialize (IH2 H). lia.
Qed.

(** X3. Escaping never shortens a text and makes it at most six times as
    long; it returns the text as it is exactly when the text has none of the
    four characters [&], [<], [>] and the double quote.  In particular it is
    not idempotent: escaping an escaped text that holds an entity changes
    it. *)
Theorem escapeHtml_fixed_points :
  forall text,
    length text <= length (escapeHtml text) <= 6 * length text
    /\ (escapeHtml text = text <-> existsb isHtmlSpecial text = false).
Proof.
  intros text. rewrite escapeHtml_chars.
  destruct (escapeHtml_length text) as [Hl Hs]. split; [exact Hl|]. split.
  - intros E. destruct (existsb isHtmlSpecial text); [|reflexivity].
    specialize (Hs eq_refl). rewrite E in Hs. lia.
  - intros H. clear Hl Hs. induction text as [|c text IH]; [reflexivity|].
    cbn [existsb] in H. apply orb_false_iff in H as [Hc Ht].
    cbn [flat_map]. rewrite (IH Ht).
    destruct (escapeChar_cases c) as [[_ ->] | [Hs _]]; [reflexivity | congruence].
Qed.

(** On a text without special characters. *)
Lemma escapeHtml_fixed_points_witness :
  existsb isHtmlSpecial (js "a b") = false /\ escapeHtml (js "a b") = js "a b".
Proof.
  split; [reflexivity|].
  exact (proj2 (proj2 (escapeHtml_fixed_points (js "a b"))) eq_refl).
Defined.

(** ** The pattern of line 91 *)

Lemma prefixb_true (p s : jsstring) :
  prefixb p s = true <-> exists r, s = p ++ r.
Proof.
  split.
  - revert s; induction p as [|c p IH]; intros s H; [now exists s|].
    destruct s as [|d s]; cbn [prefixb] in H; [discriminate|].
    apply andb_true_iff in H as [Hc Hp]. apply N.eqb_eq in Hc as ->.
    destruct (IH _ Hp) as [r ->]. now exists r.
  - intros [r ->]. apply prefixb_app.
Qed.



(** X5. What the pattern of block [i] matches at the head of a string: the
    text [<pre><code], then any characters but [>], then [>], white space,
    the placeholder of [i], white space, and [</code></pre>]; the match ends
    there.  Attributes of the code element and white space around the
    placeholder are accepted, anything else between them is not. *)
Theorem wrappedPattern_matches :
  forall i s n,
    matchHere (wrappedPattern i) s = Some n
    <-> exists a w1 w2 rest,
          s = openTag ++ a ++ gt :: w1 ++ placeholder i ++ w2 ++ closeTag ++ rest
          /\ forallb (accepts (NotChar gt)) a = true
          /\ forallb isSpace w1 = true
          /\ forallb isSpace w2 = true
          /\ n = length (openTag ++ a ++ gt :: w1 ++ placeholder i ++ w2 ++ closeTag).
Proof.
  intros i s n. split; [apply wrapper_match_inv|].
  intros (a & w1 & w2 & rest & -> & Ha & H1 & H2 & ->).
  now apply wrapper_match_intro.
Qed.

(** On the code block of block 0 with a class attribute. *)
Lemma wrappedPattern_matches_witness :
  exists n,
    matchHere (wrappedPattern 0)
      (openTag ++ js " class=x" ++ gt :: nl ++ placeholder 0 ++ nl ++ closeTag
         ++ js "<p>") = Some n.
Proof.
  eexists.
  apply (proj2 (wrappedPattern_matches 0 _ _)).
  exists (js " class=x"), nl, nl, (js "<p>").
  split; [reflexivity|]. split; [reflexivity|]. split; [reflexivity|].
  split; reflexivity.
Defined.

Lemma first_split_unique (p : N -> bool) (x y x' y' : jsstring) (c c' : N) :
  forallb p x = true -> forallb p x' = true -> p c = false -> p c' = false ->
  x ++ c :: y = x' ++ c' :: y' -> x = x' /\ c :: y = c' :: y'.
Proof.
  revert x'; induction x as [|d x IH]; intros [|d' x'] Hx Hx' Hc Hc' E;
    cbn [app forallb] in *.
  - now split.
  - injection E as -> _. apply andb_true_iff in Hx' as [Hd _]. congruence.
  - injection E as -> _. apply andb_true_iff in Hx as [Hd _]. congruence.
  - injection E as -> E.
    apply andb_true_iff in Hx as [_ Hx]. apply andb_true_iff in Hx' as [_ Hx'].
    destruct (IH _ Hx Hx' Hc Hc' E) as [-> E']. now split.
Qed.

Lemma placeholder_prefix_free (i j : nat) (r : jsstring) :
  prefixb (placeholder i) (placeholder j ++ r) = true -> i = j.
Proof.
  intros H. apply prefixb_true in H as [r' E].
  unfold placeholder in E. rewrite <- !app_assoc in E.
  apply app_inv_head in E.
  change (js "-->") with (45%N :: js "->") in E. cbn [app] in E.
  apply first_split_unique with (p := isDigit) in E;
    try apply decimal_digits; try reflexivity.
  destruct E as [E _]. symmetry. now apply decimal_injective.
Qed.

(** X6. No placeholder is the beginning of another one: the token of block
    1 is not the head of the token of block 10.  So the pattern of block [i]
    does not match at the code block of another block [j], whatever follows
    it. *)
Theorem wrappedPattern_other_block :
  (forall i j r, prefixb (placeholder i) (placeholder j ++ r) = true -> i = j)
  /\ (forall i j w r,
        i <> j ->
        matchHere (wrappedPattern j) w = Some (length w) ->
        matchHere (wrappedPattern i) (w ++ r) = None).
Proof.
  split; [exact placeholder_prefix_free|].
  intros i j w r Hne Hw.
  destruct (matchHere (wrappedPattern i) (w ++ r)) as [n|] eqn:Em; [exfalso|reflexivity].
  apply Hne.
  destruct (wrapper_match_inv _ _ Hw) as (a' & w1' & w2' & rest' & -> & Ha' & H1' & _).
  destruct (wrapper_match_inv _ _ Em) as (a & w1 & w2 & rest & E & Ha & H1 & _).
  repeat (rewrite <- ?app_assoc in E; cbn [app] in E).
  apply app_inv_head in E.
  apply first_split_unique with (p := accepts (NotChar gt)) in E;
    try assumption; try reflexivity.
  destruct E as [_ E]. apply (f_equal (@tl N)) in E. cbn [tl] in E.
  destruct (placeholder_tag j) as (bj & Ej & _).
  destruct (placeholder_tag i) as (bi & Ei & _).
  rewrite Ej, Ei in E. cbn [app] in E.
  apply first_split_unique with (p := isSpace) in E;
    try assumption; try reflexivity.
  destruct E as [_ E].
  apply (@placeholder_prefix_free i j (w2' ++ closeTag ++ rest' ++ r)).
  apply prefixb_true. exists (w2 ++ closeTag ++ rest).
  rewrite Ej, Ei. cbn [app]. exact E.
Qed.

(** On the patterns of blocks 1 and 10. *)
Lemma wrappedPattern_other_block_witness :
  matchHere (wrappedPattern 10)
    (openTag ++ gt :: placeholder 10 ++ nl ++ closeTag)
  = Some (length (openTag ++ gt :: placeholder 10 ++ nl ++ closeTag))
  /\ matchHere (wrappedPattern 1)
       ((openTag ++ gt :: placeholder 10 ++ nl ++ closeTag) ++ js "<p>") = None.
Proof.
  assert (H : matchHere (wrappedPattern 10)
                (openTag ++ gt :: placeholder 10 ++ nl ++ closeTag)
              = Some (length (openTag ++ gt :: placeholder 10 ++ nl ++ closeTag)))
    by (vm_compute; reflexivity).
  split; [exact H|].
  apply (proj2 wrappedPattern_other_block 1 10 _ (js "<p>")); [discriminate | exact H].
Defined.

(** ** The callback and the walk *)

Section Callback.

Context {L : Libraries}.

(** X7. A code block with a language that highlight.js knows is highlighted
    with that language, not by detection, and leaves the extraction state as
    it is.  A diagram fence is never given to highlight.js, also when a
    grammar named [mermaid] is registered: it becomes the next block and its
    placeholder. *)
Theorem highlight_registered_language :
  (forall text lang st,
     streq lang (js "mermaid") = false -> truthy lang = true ->
     hljs_getLanguage lang = true ->
     highlight text lang st = Some (hljs_highlight_value text lang, st))
  /\ (forall text st,
        hljs_getLanguage (js "mermaid") = true ->
        highlight text (js "mermaid") st
        = Some (placeholder (mermaidIndex st),
                {| mermaidBlocks := mermaidBlocks st
                                      ++ [{| index := mermaidIndex st; code := text |}];
                   mermaidIndex := S (mermaidIndex st) |})).
Proof.
  split.
  - intros text lang st Hm Ht Hl. rewrite highlight_other by exact Hm.
    unfold highlighted. now rewrite Ht, Hl.
  - intros text st _. apply highlight_mermaid.
Qed.

Lemma getLang_inv (lang : jsstring) :
  lang = getLang lang
  \/ exists c rest, lang = getLang lang ++ c :: rest /\ isSpace c = true.
Proof.
  induction lang as [|d lang IH]; [now left|].
  cbn [getLang]. destruct (isSpace d) eqn:E.
  - right. now exists d, lang.
  - destruct IH as [IH | (c & rest & IH & Hc)].
    + left. cbn [app]. now rewrite <- IH.
    + right. exists c, rest. cbn [app]. now rewrite <- IH.
Qed.

Lemma getLang_word (word rest : jsstring) :
  forallb (fun c => negb (isSpace c)) word = true ->
  (rest = [] \/ exists c rest', rest = c :: rest' /\ isSpace c = true) ->
  getLang (word ++ rest) = word.
Proof.
  intros Hw Hr. induction word as [|d word IH]; cbn [app getLang].
  - destruct Hr as [-> | (c & rest' & -> & Hc)]; [reflexivity|].
    cbn [getLang]. now rewrite Hc.
  - cbn [forallb] in Hw. apply andb_true_iff in Hw as [Hd Hw].
    apply negb_true_iff in Hd. rewrite Hd. now rewrite IH.
Qed.

(** The first word of an info string is [mermaid] exactly when the info
    string is [mermaid], alone or followed by white space and anything. *)
Lemma isMermaid_info_string :
  forall lang text escaped,
    isMermaid (CodeToken lang text escaped) = true
    <-> lang = js "mermaid"
        \/ exists c rest, lang = js "mermaid" ++ c :: rest /\ isSpace c = true.
Proof.
  intros lang text escaped. cbn [isMermaid]. rewrite streq_eq. split.
  - intros E. destruct (getLang_inv lang) as [H | (c & rest & H & Hc)];
      rewrite E in H; [now left | right; now exists c, rest].
  - intros [-> | (c & rest & -> & Hc)].
    + reflexivity.
    + apply getLang_word; [reflexivity | right; now exists c, rest].
Qed.

(** X8. Which branch the callback takes.  Line 63 compares the language with
    [mermaid] as it is written: the callback records a block and returns its
    placeholder exactly when the language is that string; any other
    language, [Mermaid] or [mermaidjs] for one, leaves the state as it is.
    Called by the hook of marked-highlight, which passes the first word of
    the info string of a code token, the callback records the contents of
    the token as the next block exactly when the info string is [mermaid],
    alone or followed by white space and anything; for every other code
    token the hook returns with the state as it was. *)
Theorem highlight_mermaid_branch :
  (forall text lang st,
     highlight text lang st
     = Some (placeholder (mermaidIndex st),
             {| mermaidBlocks := mermaidBlocks st
                                   ++ [{| index := mermaidIndex st; code := text |}];
                mermaidIndex := S (mermaidIndex st) |})
     <-> lang = js "mermaid")
  /\ (forall text lang st,
        lang <> js "mermaid" -> exists out, highlight text lang st = Some (out, st))
  /\ (forall lang text escaped st,
        (exists t',
           walkToken (CodeToken lang text escaped) st
           = Some (t', {| mermaidBlocks :=
                            mermaidBlocks st
                              ++ [{| index := mermaidIndex st; code := text |}];
                          mermaidIndex := S (mermaidIndex st) |}))
        <-> lang = js "mermaid"
            \/ exists c rest, lang = js "mermaid" ++ c :: rest /\ isSpace c = true)
  /\ (forall lang text escaped st,
        ~ (lang = js "mermaid"
           \/ exists c rest, lang = js "mermaid" ++ c :: rest /\ isSpace c = true) ->
        exists t', walkToken (CodeToken lang text escaped) st = Some (t', st)).
Proof.
  assert (Hother : forall text lang st,
            lang <> js "mermaid" ->
            highlight text lang st = Some (highlighted text lang, st)).
  { intros text lang st Hn. apply highlight_other.
    destruct (streq lang (js "mermaid")) eqn:E; [|reflexivity].
    now apply streq_eq in E. }
  assert (Hst : forall st b,
            st <> {| mermaidBlocks := mermaidBlocks st ++ [b];
                     mermaidIndex := S (mermaidIndex st) |}).
  { intros st b E. apply (f_equal mermaidIndex) in E. cbn in E. lia. }
  split; [|split; [|split]].
  - intros text lang st. split.
    + intros H. destruct (list_eq_dec N.eq_dec lang (js "mermaid")) as [E | Hn];
        [exact E|].
      rewrite (Hother _ _ _ Hn) in H. injection H as _ H. now apply Hst in H.
    + intros ->. apply highlight_mermaid.
  - intros text lang st Hn. eexists. now apply Hother.
  - intros lang text escaped st.
    rewrite <- (isMermaid_info_string lang text escaped). split.
    + intros [t' H].
      destruct (isMermaid (CodeToken lang text escaped)) eqn:E; [reflexivity|].
      rewrite (walkToken_other _ _ _ _ E) in H. injection H as _ H.
      now apply Hst in H.
    + intros E. eexists. now apply walkToken_mermaid.
  - intros lang text escaped st Hn.
    rewrite <- (isMermaid_info_string lang text escaped) in Hn.
    eexists. apply walkToken_other.
    now destruct (isMermaid (CodeToken lang text escaped)).
Qed.

Lemma walked_length (ts : list token) (i : nat) :
  length (walked i ts) = length ts.
Proof.
  revert i; induction ts as [|t ts IH]; intros i; [reflexivity|].
  destruct t as [lang text escaped | rendered]; cbn [walked].
  - destruct (isMermaid (CodeToken lang text escaped)); cbn [length]; now rewrite IH.
  - cbn [length]. now rewrite IH.
Qed.

Lemma walked_kinds (ts : list token) (i : nat) :
  map isMermaid (walked i ts) = map isMermaid ts.
Proof.
  revert i; induction ts as [|t ts IH]; intros i; [reflexivity|].
  destruct t as [lang text escaped | rendered]; cbn [walked].
  - destruct (isMermaid (CodeToken lang text escaped)) eqn:E; cbn [map];
      rewrite isMermaid_updateToken, IH; reflexivity.
  - cbn [map]. now rewrite IH.
Qed.

Lemma walked_others (ts : list token) :
  forall i k rendered,
    nth_error ts k = Some (OtherToken rendered) ->
    nth_error (walked i ts) k = Some (OtherToken rendered).
Proof.
  induction ts as [|t ts IH]; intros i k rendered H; [now destruct k|].
  destruct k as [|k].
  - cbn in H. injection H as ->. reflexivity.
  - cbn [nth_error] in H.
    destruct t as [lang text escaped | r]; cbn [walked].
    + destruct (isMermaid (CodeToken lang text escaped)); cbn [nth_error]; now apply IH.
    + cbn [nth_error]. now apply IH.
Qed.

(** X9. The walk from any state of the closure: it never throws, returns as
    many tokens as it was given, diagrams where diagrams were, and every
    token that is not code as it was.  It keeps the blocks it found in the
    state and appends one block per diagram fence, numbered on from the
    counter; a counter that equals the number of blocks still does so
    afterwards. *)
Theorem walkTokens_effect :
  forall ts st, exists ts' st',
    walkTokens ts st = Some (ts', st')
    /\ length ts' = length ts
    /\ map isMermaid ts' = map isMermaid ts
    /\ (forall k rendered,
          nth_error ts k = Some (OtherToken rendered) ->
          nth_error ts' k = Some (OtherToken rendered))
    /\ mermaidBlocks st'
       = mermaidBlocks st ++ numberedFrom (mermaidIndex st) (mermaidSources ts)
    /\ mermaidIndex st' = mermaidIndex st + length (mermaidSources ts)
    /\ (mermaidIndex st = length (mermaidBlocks st) ->
        mermaidIndex st' = length (mermaidBlocks st')).
Proof.
  intros ts st. eexists. eexists. split; [apply walkTokens_walked|].
  cbn [mermaidBlocks mermaidIndex].
  split; [apply walked_length|]. split; [apply walked_kinds|].
  split; [intros k rendered; apply walked_others|].
  split; [reflexivity|]. split; [reflexivity|].
  intros E. rewrite length_app, E. f_equal.
  generalize (length (mermaidBlocks st)).
  induction (mermaidSources ts); intros; cbn; [easy | now rewrite <- IHl].
Qed.

(** X10. A document without a diagram fence: the loop has nothing to do,
    the fragment is the HTML that marked returns, and the flag is not set.
    This also holds when the document itself holds the text of a
    placeholder. *)
Theorem markdownToHtml_without_diagrams :
  forall tokens,
    mermaidSources tokens = [] ->
    exists html0 st,
      parse tokens initial = Some (html0, st)
      /\ mermaidBlocks st = []
      /\ markdownToHtml tokens = Some {| html := html0; hasMermaid := false |}.
Proof.
  intros tokens H. unfold markdownToHtml, parse, bind.
  rewrite walkTokens_walked. cbn [ret mermaidBlocks initial mermaidIndex app].
  rewrite H. eexists. eexists. split; [reflexivity|]. split; reflexivity.
Qed.

End Callback.

(** On the fence [```text] over a highlight.js that knows [plaintext]. *)
Lemma highlight_registered_language_witness :
  hljs_getLanguage (Libraries := plaintextOnly) (js "text") = true
  /\ highlight (L := plaintextOnly) (js "a < b") (js "text") initial
     = Some (js "a &lt; b", initial).
Proof.
  split; [reflexivity|].
  exact (proj1 (highlight_registered_language (L := plaintextOnly))
           (js "a < b") (js "text") initial eq_refl eq_refl eq_refl).
Defined.

(** On the info strings [mermaid theme=dark] and [Mermaid]. *)
Lemma highlight_mermaid_branch_witness :
  (exists t',
     walkToken (L := reference)
       (CodeToken (js "mermaid theme=dark") (js "graph TD; A-->B") false) initial
     = Some (t', {| mermaidBlocks := [{| index := 0; code := js "graph TD; A-->B" |}];
                    mermaidIndex := 1 |}))
  /\ exists out,
       highlight (L := reference) (js "graph TD; A-->B") (js "Mermaid") initial
       = Some (out, initial).
Proof.
  split.
  - apply (proj2 (proj1 (proj2 (proj2 (highlight_mermaid_branch (L := reference))))
                    (js "mermaid theme=dark") (js "graph TD; A-->B") false initial)).
    right. exists 32%N, (js "theme=dark"). split; reflexivity.
  - apply (proj1 (proj2 (highlight_mermaid_branch (L := reference)))).
    vm_compute. discriminate.
Defined.

(** On [twoDiagrams], from the state in which the closure starts. *)
Lemma walkTokens_effect_witness :
  mermaidIndex initial = length (mermaidBlocks initial)
  /\ exists ts' st',
       walkTokens (L := reference) twoDiagrams initial = Some (ts', st')
       /\ length ts' = length twoDiagrams
       /\ mermaidIndex st' = length (mermaidBlocks st').
Proof.
  split; [reflexivity|].
  destruct (walkTokens_effect (L := reference) twoDiagrams initial)
    as (ts' & st' & Hw & Hl & _ & _ & _ & _ & Hc).
  exists ts', st'. split; [exact Hw|]. split; [exact Hl|]. apply Hc. reflexivity.
Defined.

(** On a paragraph that quotes a placeholder, and a fence tagged [text]. *)
Lemma markdownToHtml_without_diagrams_witness :
  mermaidSources [OtherToken (js "<p><!--MERMAID_PLACEHOLDER_0--></p>");
                  CodeToken (js "text") (js "a < b") false] = []
  /\ markdownToHtml (L := reference)
       [OtherToken (js "<p><!--MERMAID_PLACEHOLDER_0--></p>");
        CodeToken (js "text") (js "a < b") false]
     = Some {| html := js "<p><!--MERMAID_PLACEHOLDER_0--></p>"
                         ++ js "<pre><code class=" ++ q ++ js "hljs language-text" ++ q
                         ++ js ">a &lt; b" ++ nl ++ js "</code></pre>";
               hasMermaid := false |}.
Proof.
  split; [reflexivity|].
  destruct (markdownToHtml_without_diagrams (L := reference)
              [OtherToken (js "<p><!--MERMAID_PLACEHOLDER_0--></p>");
               CodeToken (js "text") (js "a < b") false] eq_refl)
    as (html0 & st & Hp & _ & E).
  rewrite E. vm_compute in Hp. injection Hp as <- _. reflexivity.
Defined.

(** ** The calls of generatePdf *)

Lemma runScript_spec (w : world) (todo : list call) :
  forall tr,
    exists made rest,
      todo = made ++ rest
      /\ fst (runScript w tr todo) = tr ++ made
      /\ (snd (runScript w tr todo) = None -> rest = [])
      /\ (forall e, snd (runScript w tr todo) = Some e ->
            exists before c, made = before ++ [c] /\ w (tr ++ before) c = Some e)
      /\ (forall before c after,
            made = before ++ c :: after -> after <> [] -> isDelay c = false ->
            w (tr ++ before) c = None).
Proof.
  induction todo as [|c todo IH]; intros tr.
  - exists [], []. cbn. rewrite app_nil_r. repeat split; try easy.
    intros [|? ?] ? ? H; discriminate H.
  - cbn [runScript].
    assert (Hgo : forall (Hc : isDelay c = true \/ w tr c = None),
              exists made rest,
                c :: todo = made ++ rest
                /\ fst (runScript w (tr ++ [c]) todo) = tr ++ made
                /\ (snd (runScript w (tr ++ [c]) todo) = None -> rest = [])
                /\ (forall e, snd (runScript w (tr ++ [c]) todo) = Some e ->
                      exists before c0, made = before ++ [c0]
                                        /\ w (tr ++ before) c0 = Some e)
                /\ (forall before c0 after,
                      made = before ++ c0 :: after -> after <> [] ->
                      isDelay c0 = false -> w (tr ++ before) c0 = None)).
    { intros Hc. destruct (IH (tr ++ [c])) as (made & rest & -> & Hf & Hn & He & Hb).
      exists (c :: made), rest. split; [reflexivity|].
      split; [rewrite Hf, <- app_assoc; reflexivity|]. split; [exact Hn|]. split.
      - intros e H. destruct (He e H) as (before & c0 & -> & Hw).
        exists (c :: before), c0. split; [reflexivity|].
        now rewrite <- app_assoc in Hw.
      - intros [|b before] c0 after E Ha Hd; cbn [app] in E; injection E as <- E.
        + rewrite app_nil_r. destruct Hc as [Hc | Hc]; [congruence | exact Hc].
        + specialize (Hb before c0 after E Ha Hd).
          now rewrite <- app_assoc in Hb. }
    destruct (isDelay c) eqn:Ed; [apply Hgo; now left|].
    destruct (w tr c) as [e|] eqn:Ew; [|apply Hgo; now right].
    exists [c], todo. cbn [fst snd app]. repeat split; try easy.
    + intros e' [= <-]. exists [], c. now rewrite app_nil_r.
    + intros [|b [|b' before]] c0 [|a after] E Ha; try easy; discriminate E.
Qed.

(** X11. Every run of [generatePdf] makes the calls of the script in their
    order and stops at the first one that the browser rejects: the trace is
    a beginning of [launch, newPage, setContent, (waitForFunction,
    setTimeout,) pdf, close]; a run that returns has made them all; what a
    run throws is the rejection of the last call it made; and every call
    with a call after it had resolved. *)
Theorem generatePdf_stops_at_first_rejection :
  forall htmlContent outputPath hasMermaid w,
    let tr := fst (run (generatePdf htmlContent outputPath hasMermaid) w) in
    let res := snd (run (generatePdf htmlContent outputPath hasMermaid) w) in
    (exists rest,
       script htmlContent outputPath hasMermaid = tr ++ rest
       /\ (forall p, res = inr p -> rest = [] /\ p = outputPath))
    /\ (forall e, res = inl e ->
          exists before c, tr = before ++ [c] /\ w before c = Some e)
    /\ (forall before c after,
          tr = before ++ c :: after -> after <> [] -> isDelay c = false ->
          w before c = None).
Proof.
  intros h o has w. cbv zeta. rewrite generatePdf_runScript. cbn [fst snd].
  destruct (runScript_spec w (script h o has) []) as (made & rest & E & Hf & Hn & He & Hb).
  cbn [app] in Hf, He, Hb. rewrite Hf. split; [|split].
  - exists rest. split; [exact E|]. intros p Hp.
    destruct (snd (runScript w [] (script h o has))); [discriminate Hp|].
    injection Hp as <-. split; [now apply Hn | reflexivity].
  - intros e H. apply He.
    destruct (snd (runScript w [] (script h o has))); [now injection H as -> | discriminate H].
  - exact Hb.
Qed.

(** On a browser in which the diagrams never report completion. *)
Lemma generatePdf_stops_at_first_rejection_witness :
  snd (run (generatePdf (js "<p></p>") (js "out.pdf") true) neverRendered)
  = inl TimeoutError
  /\ exists before c,
       fst (run (generatePdf (js "<p></p>") (js "out.pdf") true) neverRendered)
       = before ++ [c]
       /\ neverRendered before c = Some TimeoutError.
Proof.
  split; [reflexivity|].
  exact (proj1 (proj2 (generatePdf_stops_at_first_rejection (js "<p></p>")
                         (js "out.pdf") true neverRendered))
           TimeoutError eq_refl).
Defined.

(** X12. When the wait for the diagrams is rejected, by its timeout or
    otherwise, [generatePdf] throws and no delay, no export and no close is
    requested: no PDF is written for a document whose diagrams did not
    render. *)
Theorem generatePdf_no_export_after_timeout :
  forall htmlContent outputPath w e,
    w [launchCall; NewPage; loadCall htmlContent] (WaitForFunction 30000) = Some e ->
    let tr := fst (run (generatePdf htmlContent outputPath true) w) in
    calls isPdf tr = 0 /\ calls isDelay tr = 0 /\ calls isClose tr = 0
    /\ exists e', snd (run (generatePdf htmlContent outputPath true) w) = inl e'.
Proof.
  intros h o w e H. unfold launchCall, loadCall in H. cbv zeta.
  unfold run, generatePdf, await, perform, sleep, done; cbn [app].
  destruct (w [] _); cbn [app fst snd]; [repeat split; eexists; reflexivity|].
  destruct (w [_] _); cbn [app fst snd]; [repeat split; eexists; reflexivity|].
  destruct (w [_; _] _); cbn [app fst snd]; [repeat split; eexists; reflexivity|].
  rewrite H. cbn [app fst snd]. repeat split. eexists; reflexivity.
Qed.

Lemma generatePdf_no_export_after_timeout_witness :
  neverRendered [launchCall; NewPage; loadCall (js "<p></p>")] (WaitForFunction 30000)
  = Some TimeoutError
  /\ calls isPdf (fst (run (generatePdf (js "<p></p>") (js "out.pdf") true)
                         neverRendered)) = 0.
Proof.
  split; [reflexivity|].
  exact (proj1 (generatePdf_no_export_after_timeout (js "<p></p>") (js "out.pdf")
                  neverRendered eq_refl)).
Defined.

Section Conversion.

Context {L : Libraries}.

(** X13. From the tokens to the browser: for a document without a diagram
    fence the conversion never asks the browser to wait for diagrams or to
    delay; for a document with one, a browser that resolves every other call
    is asked to wait once, also when no code block was turned into a
    container. *)
Theorem convert_waits_for_diagrams :
  forall tokens cssContent outputPath w,
    let tr := fst (run (convert tokens cssContent outputPath) w) in
    (mermaidSources tokens = [] -> calls isWait tr = 0 /\ calls isDelay tr = 0)
    /\ (mermaidSources tokens <> [] ->
        (forall before c, isWait c = false -> w before c = None) ->
        calls isWait tr = 1 /\ In (WaitForFunction 30000) tr).
Proof.
  intros tokens css out w. cbv zeta. unfold convert.
  rewrite markdownToHtml_returns. cbn [html hasMermaid]. split.
  - intros ->. cbn [length Nat.ltb Nat.leb].
    split; browser_cases w; reflexivity.
  - intros Hne Hw. destruct (mermaidSources tokens); [easy|].
    cbn [length Nat.ltb Nat.leb].
    unfold run, generatePdf, await, perform, sleep, done; cbn [app].
    rewrite !Hw by reflexivity. cbn [app fst snd].
    destruct (w _ (WaitForFunction 30000)); cbn [app fst snd].
    + split; [reflexivity | cbn; tauto].
    + rewrite !Hw by reflexivity. cbn [app fst snd]. split; [reflexivity | cbn; tauto].
Qed.

End Conversion.

(** On a paragraph alone, and on [twoDiagrams] over a browser that resolves
    every call. *)
Lemma convert_waits_for_diagrams_witness :
  calls isWait (fst (run (convert (L := reference) [OtherToken (js "<p>text</p>")]
                            (js "") (js "out.pdf")) cooperative)) = 0
  /\ calls isWait (fst (run (convert (L := reference) twoDiagrams
                               (js "") (js "out.pdf")) cooperative)) = 1.
Proof.
  split.
  - exact (proj1 (proj1 (convert_waits_for_diagrams (L := reference)
                           [OtherToken (js "<p>text</p>")] (js "") (js "out.pdf")
                           cooperative) eq_refl)).
  - apply (proj2 (convert_waits_for_diagrams (L := reference) twoDiagrams
                    (js "") (js "out.pdf") cooperative)).
    + discriminate.
    + reflexivity.
Defined.

(** ** parseArgs *)

(** Induction for a loop that moves on by one or by two arguments. *)
Lemma arguments_ind (P : list jsstring -> Prop) :
  P [] -> (forall a, P [a]) ->
  (forall a v rest, P rest -> P (v :: rest) -> P (a :: v :: rest)) ->
  forall args, P args.
Proof.
  intros H0 H1 H2 args.
  assert (H : P args /\ forall a, P (a :: args)).
  { induction args as [|v rest [IH IH']]; [now split|].
    split; [apply IH' | intros a; apply H2; [exact IH | apply IH']]. }
  exact (proj1 H).
Qed.

Lemma parseArgsFrom_two (parsed : arguments) (a v : jsstring) (rest : list jsstring) :
  parseArgsFrom parsed (a :: v :: rest)
  = if streq a (js "--input") && truthy v then
      parseArgsFrom {| input := Some v; output := output parsed; css := css parsed |} rest
    else if streq a (js "--output") && truthy v then
      parseArgsFrom {| input := input parsed; output := Some v; css := css parsed |} rest
    else if streq a (js "--css") && truthy v then
      parseArgsFrom {| input := input parsed; output := output parsed; css := Some v |} rest
    else if streq a (js "--help") then Help
    else parseArgsFrom parsed (v :: rest).
Proof. reflexivity. Qed.

Lemma parseArgsFrom_one (parsed : arguments) (a : jsstring) :
  parseArgsFrom parsed [a] = if streq a (js "--help") then Help else Parsed parsed.
Proof. reflexivity. Qed.

(** X14. [parseArgs] ends the process only for [--help]: when it does, one
    of the arguments is [--help]; without that argument it returns. *)
Theorem parseArgs_help_only :
  forall args,
    (parseArgs args = Help -> In (js "--help") args)
    /\ (~ In (js "--help") args -> exists parsed, parseArgs args = Parsed parsed).
Proof.
  assert (H : forall args parsed,
            parseArgsFrom parsed args = Help -> In (js "--help") args).
  { intros args. induction args as [| a | a v rest IH1 IH2] using arguments_ind;
      intros parsed.
    - discriminate.
    - rewrite parseArgsFrom_one. destruct (streq a (js "--help")) eqn:E; [|discriminate].
      apply streq_eq in E as ->. intros _. now left.
    - rewrite parseArgsFrom_two.
      destruct (streq a (js "--input") && truthy v);
        [intros H; right; right; exact (IH1 _ H)|].
      destruct (streq a (js "--output") && truthy v);
        [intros H; right; right; exact (IH1 _ H)|].
      destruct (streq a (js "--css") && truthy v);
        [intros H; right; right; exact (IH1 _ H)|].
      destruct (streq a (js "--help")) eqn:E.
      + apply streq_eq in E as ->. intros _. now left.
      + intros H. right. exact (IH2 _ H). }
  intros args. split; [apply H|].
  intros Hn. unfold parseArgs in *.
  destruct (parseArgsFrom noArguments args) as [parsed|] eqn:E; [now exists parsed|].
  exfalso. exact (Hn (H _ _ E)).
Qed.

(** On [--input --help]: the flag takes [--help] as its value. *)
Lemma parseArgs_help_only_witness :
  ~ In (js "--help") [js "--input"; js "notes.md"]
  /\ (exists parsed, parseArgs [js "--input"; js "notes.md"] = Parsed parsed)
  /\ parseArgs [js "--input"; js "--help"]
     = Parsed {| input := Some (js "--help"); output := None; css := None |}.
Proof.
  assert (H : ~ In (js "--help") [js "--input"; js "notes.md"]).
  { intros [H | [H | []]]; vm_compute in H; discriminate H. }
  split; [exact H|]. split; [|reflexivity].
  exact (proj2 (parseArgs_help_only [js "--input"; js "notes.md"]) H).
Defined.

Lemma overridden_none (a : arguments) : overridden a noArguments = a.
Proof. now destruct a. Qed.

Lemma parseArgsFrom_overridden (args : list jsstring) :
  forall parsed,
    parseArgsFrom parsed args
    = match parseArgsFrom noArguments args with
      | Parsed later => Parsed (overridden parsed later)
      | Help => Help
      end.
Proof.
  induction args as [| a | a v rest IH1 IH2] using arguments_ind; intros parsed.
  - cbn. now rewrite overridden_none.
  - rewrite !parseArgsFrom_one. destruct (streq a (js "--help")); [reflexivity|].
    now rewrite overridden_none.
  - rewrite !parseArgsFrom_two.
    destruct (streq a (js "--input") && truthy v).
    { rewrite IH1. rewrite (IH1 {| input := Some v; output := _; css := _ |}).
      destruct (parseArgsFrom noArguments rest) as [later|]; [|reflexivity].
      f_equal. destruct parsed, later; unfold overridden; cbn.
      repeat match goal with |- context [match ?o with _ => _ end] => destruct o end;
        reflexivity. }
    destruct (streq a (js "--output") && truthy v).
    { rewrite IH1. rewrite (IH1 {| input := _; output := Some v; css := _ |}).
      destruct (parseArgsFrom noArguments rest) as [later|]; [|reflexivity].
      f_equal. destruct parsed, later; unfold overridden; cbn.
      repeat match goal with |- context [match ?o with _ => _ end] => destruct o end;
        reflexivity. }
    destruct (streq a (js "--css") && truthy v).
    { rewrite IH1. rewrite (IH1 {| input := _; output := _; css := Some v |}).
      destruct (parseArgsFrom noArguments rest) as [later|]; [|reflexivity].
      f_equal. destruct parsed, later; unfold overridden; cbn.
      repeat match goal with |- context [match ?o with _ => _ end] => destruct o end;
        reflexivity. }
    destruct (streq a (js "--help")); [reflexivity|]. apply IH2.
Qed.

(** X15. The loop only ever overwrites: scanning from an object that already
    has properties gives those properties overridden by what the same scan
    gives from the empty object, and whether the scan ends in the help text
    does not depend on the object. *)
Theorem parseArgs_overrides :
  forall args parsed,
    parseArgsFrom parsed args
    = match parseArgs args with
      | Parsed later => Parsed (overridden parsed later)
      | Help => Help
      end.
Proof. intros args parsed. apply parseArgsFrom_overridden. Qed.

Lemma parseArgsFrom_app (args1 : list jsstring) :
  forall parsed args2,
    takesValue (last args1 []) = false ->
    parseArgsFrom parsed (args1 ++ args2)
    = match parseArgsFrom parsed args1 with
      | Parsed parsed1 => parseArgsFrom parsed1 args2
      | Help => Help
      end.
Proof.
  induction args1 as [| a | a v rest IH1 IH2] using arguments_ind;
    intros parsed args2 Hl.
  - reflexivity.
  - cbn [last] in Hl. unfold takesValue in Hl.
    apply orb_false_iff in Hl as [Hl Hc]. apply orb_false_iff in Hl as [Hi Ho].
    rewrite parseArgsFrom_one. destruct args2 as [|v rest].
    + cbn [app]. rewrite parseArgsFrom_one. now destruct (streq a (js "--help")).
    + cbn [app]. rewrite parseArgsFrom_two, Hi, Ho, Hc. cbn [andb].
      now destruct (streq a (js "--help")).
  - assert (Hrest : takesValue (last rest []) = false).
    { destruct rest as [|x rest]; [reflexivity | exact Hl]. }
    cbn [app]. rewrite !parseArgsFrom_two.
    destruct (streq a (js "--input") && truthy v); [now apply IH1|].
    destruct (streq a (js "--output") && truthy v); [now apply IH1|].
    destruct (streq a (js "--css") && truthy v); [now apply IH1|].
    destruct (streq a (js "--help")); [reflexivity|].
    apply (IH2 parsed args2). exact Hl.
Qed.

(** X16. Options can follow one another in any order and a later one wins:
    when the first part of the command line does not end in a flag that
    still waits for its value, parsing the whole line is parsing the two
    parts and overriding the properties of the first by those of the second;
    [--help] in either part ends the process. *)
Theorem parseArgs_app :
  forall args1 args2,
    takesValue (last args1 []) = false ->
    parseArgs (args1 ++ args2)
    = match parseArgs args1 with
      | Parsed parsed1 =>
          match parseArgs args2 with
          | Parsed parsed2 => Parsed (overridden parsed1 parsed2)
          | Help => Help
          end
      | Help => Help
      end.
Proof.
  intros args1 args2 Hl. unfold parseArgs.
  rewrite parseArgsFrom_app by exact Hl.
  destruct (parseArgsFrom noArguments args1) as [parsed1|]; [|reflexivity].
  apply parseArgsFrom_overridden.
Qed.

(** On [--input a.md --css s.css] followed by [--input b.md]. *)
Lemma parseArgs_app_witness :
  takesValue (last [js "--input"; js "a.md"; js "--css"; js "s.css"] []) = false
  /\ parseArgs ([js "--input"; js "a.md"; js "--css"; js "s.css"]
                  ++ [js "--input"; js "b.md"])
     = Parsed {| input := Some (js "b.md"); output := None; css := Some (js "s.css") |}.
Proof.
  split; [reflexivity|].
  exact (parseArgs_app [js "--input"; js "a.md"; js "--css"; js "s.css"]
           [js "--input"; js "b.md"] eq_refl).
Defined.

Lemma parseArgsFrom_values (args : list jsstring) :
  forall parsed result,
    parseArgsFrom parsed args = Parsed result ->
    (forall v, input result = Some v ->
       input parsed = Some v
       \/ (truthy v = true
           /\ exists before after, args = before ++ js "--input" :: v :: after))
    /\ (forall v, output result = Some v ->
          output parsed = Some v
          \/ (truthy v = true
              /\ exists before after, args = before ++ js "--output" :: v :: after))
    /\ (forall v, css result = Some v ->
          css parsed = Some v
          \/ (truthy v = true
              /\ exists before after, args = before ++ js "--css" :: v :: after)).
Proof.
  assert (Hlift : forall (flag a v0 : jsstring) (rest : list jsstring)
                    (x : option jsstring) (v : jsstring) (k : nat),
             (x = Some v \/
              (truthy v = true /\ exists before after,
                  skipn k (a :: v0 :: rest) = before ++ flag :: v :: after)) ->
             k <= 2 ->
             x = Some v \/
             (truthy v = true /\ exists before after,
                 a :: v0 :: rest = before ++ flag :: v :: after)).
  { intros flag a v0 rest x v k [H | (Ht & before & after & E)] Hk; [now left|].
    right. split; [exact Ht|].
    destruct k as [|[|[|k]]]; try lia; cbn [skipn] in E.
    - now exists before, after.
    - exists (a :: before), after. cbn [app]. now rewrite E.
    - exists (a :: v0 :: before), after. cbn [app]. now rewrite E. }
  induction args as [| a | a v0 rest IH1 IH2] using arguments_ind;
    intros parsed result.
  - intros [= <-]. repeat split; intros v H; now left.
  - rewrite parseArgsFrom_one. destruct (streq a (js "--help")); [discriminate|].
    intros [= <-]. repeat split; intros v H; now left.
  - rewrite parseArgsFrom_two.
    destruct (streq a (js "--input") && truthy v0) eqn:Ei.
    { intros H. destruct (IH1 _ _ H) as (I & O & C). cbn [input output css] in *.
      apply andb_true_iff in Ei as [Ea Ev]. apply streq_eq in Ea as ->.
      split; [|split]; intros v Hv.
      - destruct (I v Hv) as [[= ->] | Hr].
        + right. split; [exact Ev|]. now exists [], rest.
        + apply (Hlift _ _ _ _ _ v 2); [right; exact Hr | lia].
      - apply (Hlift _ _ _ _ _ v 2); [|lia]. exact (O v Hv).
      - apply (Hlift _ _ _ _ _ v 2); [|lia]. exact (C v Hv). }
    destruct (streq a (js "--output") && truthy v0) eqn:Eo.
    { intros H. destruct (IH1 _ _ H) as (I & O & C). cbn [input output css] in *.
      apply andb_true_iff in Eo as [Ea Ev]. apply streq_eq in Ea as ->.
      split; [|split]; intros v Hv.
      - apply (Hlift _ _ _ _ _ v 2); [|lia]. exact (I v Hv).
      - destruct (O v Hv) as [[= ->] | Hr].
        + right. split; [exact Ev|]. now exists [], rest.
        + apply (Hlift _ _ _ _ _ v 2); [right; exact Hr | lia].
      - apply (Hlift _ _ _ _ _ v 2); [|lia]. exact (C v Hv). }
    destruct (streq a (js "--css") && truthy v0) eqn:Ec.
    { intros H. destruct (IH1 _ _ H) as (I & O & C). cbn [input output css] in *.
      apply andb_true_iff in Ec as [Ea Ev]. apply streq_eq in Ea as ->.
      split; [|split]; intros v Hv.
      - apply (Hlift _ _ _ _ _ v 2); [|lia]. exact (I v Hv).
      - apply (Hlift _ _ _ _ _ v 2); [|lia]. exact (O v Hv).
      - destruct (C v Hv) as [[= ->] | Hr].
        + right. split; [exact Ev|]. now exists [], rest.
        + apply (Hlift _ _ _ _ _ v 2); [right; exact Hr | lia]. }
    destruct (streq a (js "--help")); [discriminate|].
    intros H. destruct (IH2 _ _ H) as (I & O & C).
    split; [|split]; intros v Hv.
    + apply (Hlift _ _ _ _ _ v 1); [|lia]. exact (I v Hv).
    + apply (Hlift _ _ _ _ _ v 1); [|lia]. exact (O v Hv).
    + apply (Hlift _ _ _ _ _ v 1); [|lia]. exact (C v Hv).
Qed.

(** X17. Every property of the object that [parseArgs] returns is a
    non-empty string that stands in the command line right behind its flag;
    no property is ever set to the empty string, and none without its
    flag. *)
Theorem parseArgs_values :
  forall args parsed,
    parseArgs args = Parsed parsed ->
    (forall v, input parsed = Some v ->
       v <> [] /\ exists before after, args = before ++ js "--input" :: v :: after)
    /\ (forall v, output parsed = Some v ->
          v <> [] /\ exists before after, args = before ++ js "--output" :: v :: after)
    /\ (forall v, css parsed = Some v ->
          v <> [] /\ exists before after, args = before ++ js "--css" :: v :: after).
Proof.
  intros args parsed H.
  destruct (parseArgsFrom_values _ _ H) as (I & O & C).
  split; [|split]; intros v Hv.
  - destruct (I v Hv) as [Hn | [Ht He]]; [discriminate Hn|].
    split; [now destruct v | exact He].
  - destruct (O v Hv) as [Hn | [Ht He]]; [discriminate Hn|].
    split; [now destruct v | exact He].
  - destruct (C v Hv) as [Hn | [Ht He]]; [discriminate Hn|].
    split; [now destruct v | exact He].
Qed.

(** On [--output "" --input notes.md]: the empty value is not taken. *)
Lemma parseArgs_values_witness :
  parseArgs [js "--output"; js ""; js "--input"; js "notes.md"]
  = Parsed {| input := Some (js "notes.md"); output := None; css := None |}
  /\ js "notes.md" <> []
  /\ exists before after,
       [js "--output"; js ""; js "--input"; js "notes.md"]
       = before ++ js "--input" :: js "notes.md" :: after.
Proof.
  assert (H : parseArgs [js "--output"; js ""; js "--input"; js "notes.md"]
              = Parsed {| input := Some (js "notes.md"); output := None; css := None |})
    by reflexivity.
  split; [exact H|].
  exact (proj1 (parseArgs_values _ H) (js "notes.md") eq_refl).
Defined.

(** ** The path of the PDF *)

Lemma isDotMd_length (s : jsstring) : isDotMd s = true -> length s = 3.
Proof. destruct s as [|a [|b [|c [|d s]]]]; cbn; try discriminate; reflexivity. Qed.

Lemma replaceMdExtension_extension (stem ext : jsstring) :
  isDotMd ext = true -> replaceMdExtension (stem ++ ext) = stem ++ js ".pdf".
Proof.
  intros H. induction stem as [|c stem IH].
  - destruct ext as [|a ext]; [discriminate H|].
    cbn [app replaceMdExtension]. now rewrite H.
  - cbn [app replaceMdExtension]. rewrite IH.
    destruct (isDotMd (c :: stem ++ ext)) eqn:E; [|reflexivity].
    apply isDotMd_length in E. apply isDotMd_length in H.
    cbn [length] in E. rewrite length_app in E. lia.
Qed.

Lemma replaceMdExtension_other (inputPath : jsstring) :
  (forall stem ext, inputPath = stem ++ ext -> isDotMd ext = false) ->
  replaceMdExtension inputPath = inputPath.
Proof.
  induction inputPath as [|c p IH]; intros H.
  - reflexivity.
  - cbn [replaceMdExtension]. rewrite (H [] (c :: p) eq_refl).
    rewrite IH; [reflexivity|]. intros stem ext ->. now apply (H (c :: stem)).
Qed.

(** X18. The path of the PDF when no [--output] is given: a path that ends
    in [.md], in any mix of upper and lower case, gets [.pdf] in the place of
    these three characters, and nothing else of it changes; any other path
    is returned as it is, so the PDF is then written to the path of the
    input file.  Applying the rule twice changes nothing more. *)
Theorem replaceMdExtension_rule :
  (forall stem ext,
     isDotMd ext = true -> replaceMdExtension (stem ++ ext) = stem ++ js ".pdf")
  /\ (forall inputPath,
        (forall stem ext, inputPath = stem ++ ext -> isDotMd ext = false) ->
        replaceMdExtension inputPath = inputPath)
  /\ (forall inputPath,
        replaceMdExtension (replaceMdExtension inputPath)
        = replaceMdExtension inputPath).
Proof.
  split; [exact replaceMdExtension_extension|].
  split; [exact replaceMdExtension_other|].
  assert (Hpdf : forall stem, replaceMdExtension (stem ++ js ".pdf") = stem ++ js ".pdf").
  { intros stem. induction stem as [|c stem IH]; [reflexivity|].
    cbn [app replaceMdExtension]. rewrite IH.
    destruct (isDotMd (c :: stem ++ js ".pdf")) eqn:E; [|reflexivity].
    apply isDotMd_length in E. cbn [length] in E. rewrite length_app in E.
    cbn in E. lia. }
  intros p. induction p as [|c p IH]; [reflexivity|].
  cbn [replaceMdExtension]. destruct (isDotMd (c :: p)) eqn:E.
  - exact (Hpdf []).
  - cbn [replaceMdExtension]. rewrite IH.
    destruct (isDotMd (c :: replaceMdExtension p)) eqn:E'; [|reflexivity].
    exfalso. destruct p as [|b p]; [discriminate E'|].
    cbn [replaceMdExtension] in E'.
    destruct (isDotMd (b :: p)) eqn:Eb.
    + cbn in E'. discriminate E'.
    + destruct p as [|d p]; [discriminate E'|].
      cbn [replaceMdExtension] in E'.
      destruct (isDotMd (d :: p)) eqn:Ed; [cbn in E'; discriminate E'|].
      destruct p as [|f p].
      * change (replaceMdExtension []) with (@nil N) in E'. congruence.
      * cbn [replaceMdExtension] in E'.
        destruct (isDotMd (f :: p)); cbn in E'; discriminate E'.
Qed.

(** On [notes.MD], and on [notes.txt]. *)
Lemma replaceMdExtension_rule_witness :
  isDotMd (js ".MD") = true
  /\ replaceMdExtension (js "/work/notes" ++ js ".MD") = js "/work/notes.pdf"
  /\ replaceMdExtension (js "/work/notes.txt") = js "/work/notes.txt".
Proof.
  split; [reflexivity|]. split.
  - exact (proj1 replaceMdExtension_rule (js "/work/notes") (js ".MD") eq_refl).
  - apply (proj1 (proj2 replaceMdExtension_rule)).
    intros stem ext E.
    destruct (isDotMd ext) eqn:H; [|reflexivity].
    exfalso. destruct ext as [|a [|b [|c [|d ext]]]]; try discriminate H.
    apply (f_equal (@rev N)) in E. rewrite rev_app_distr in E.
    cbn in E. injection E as _ _ Ea _. subst a. discriminate H.
Defined.

(** ** main *)

Lemma generatePdf_trace_pdf (htmlContent outputPath : jsstring) (hasMermaid : bool)
    (w : world) (options : pdfOptions) :
  In (Pdf options) (fst (run (generatePdf htmlContent outputPath hasMermaid) w)) ->
  options = exportOptions outputPath.
Proof.
  destruct hasMermaid; browser_cases w; cbn [In]; intros H;
    repeat (destruct H as [H | H]; [try discriminate H|]); try contradiction;
    now injection H as <-.
Qed.

Lemma generatePdf_trace_wait (htmlContent outputPath : jsstring) (hasMermaid : bool)
    (w : world) (timeout : N) :
  In (WaitForFunction timeout)
     (fst (run (generatePdf htmlContent outputPath hasMermaid) w)) ->
  hasMermaid = true.
Proof.
  destruct hasMermaid; [reflexivity|]. browser_cases w; cbn [In]; intros H;
    repeat (destruct H as [H | H]; [discriminate H|]); contradiction.
Qed.

Lemma generatePdf_trace_launch (htmlContent outputPath : jsstring) (hasMermaid : bool)
    (w : world) :
  exists rest,
    fst (run (generatePdf htmlContent outputPath hasMermaid) w) = launchCall :: rest.
Proof.
  destruct hasMermaid; browser_cases w; eexists; reflexivity.
Qed.

Ltac main_ways env argv w :=
  unfold main;
  destruct (parseArgs argv) as [args|] eqn:Ep;
  [ destruct (input args) as [given|] eqn:Ei;
    [ cbv zeta; fold (cssPathOf env args); fold (outputPathOf env args given);
      destruct (existsSync env (resolve env given)) eqn:Ex; cbn [negb];
      [ destruct (existsSync env (cssPathOf env args)) eqn:Exc; cbn [negb];
        [ destruct (readFileSync env (resolve env given))
            as [e|markdownContent] eqn:Er;
          [ | destruct (readFileSync env (cssPathOf env args))
                as [e|cssContent] eqn:Erc;
              [ | rewrite markdownToHtml_returns; cbn [html hasMermaid];
                  match goal with
                  | |- context [run ?m w] =>
                      destruct (run m w) as [tr [e|p]] eqn:Erun
                  end ] ]
        | ]
      | ]
    | ]
  | ];
  unfold failed; cbn [console browser ended].

Section Main.

Context {L : Libraries}.

Variable env : node.
Variable argv : list jsstring.
Variable w : world.

Lemma main_converts (args : arguments) (given markdownContent cssContent : jsstring) :
  parseArgs argv = Parsed args -> input args = Some given ->
  existsSync env (resolve env given) = true ->
  existsSync env (cssPathOf env args) = true ->
  readFileSync env (resolve env given) = inr markdownContent ->
  readFileSync env (cssPathOf env args) = inr cssContent ->
  browser (main env argv w)
  = fst (run (convert (lexer env markdownContent) cssContent
                (outputPathOf env args given)) w).
Proof.
  intros Ep Ei Ex Exc Er Erc. unfold main, convert. rewrite Ep, Ei. cbv zeta.
  fold (cssPathOf env args). fold (outputPathOf env args given).
  rewrite Ex, Exc, Er, Erc. cbn [negb].
  rewrite markdownToHtml_returns. cbn [html hasMermaid].
  match goal with |- context [run ?m w] => destruct (run m w) as [tr [e|p]] end;
    reflexivity.
Qed.

(** X19. [main] starts the browser last: when any call was made on the
    browser, the arguments had been parsed with an input file, the input
    file and the style sheet exist and both were read, and the calls are
    those of the conversion of the tokens of the input with that style sheet
    and the output path. *)
Theorem main_checks_before_browser :
  browser (main env argv w) <> [] ->
  exists args given markdownContent cssContent,
    parseArgs argv = Parsed args /\ input args = Some given
    /\ existsSync env (resolve env given) = true
    /\ existsSync env (cssPathOf env args) = true
    /\ readFileSync env (resolve env given) = inr markdownContent
    /\ readFileSync env (cssPathOf env args) = inr cssContent
    /\ browser (main env argv w)
       = fst (run (convert (lexer env markdownContent) cssContent
                     (outputPathOf env args given)) w).
Proof.
  intros H.
  assert (Hc : forall args given markdownContent cssContent,
            parseArgs argv = Parsed args -> input args = Some given ->
            existsSync env (resolve env given) = true ->
            existsSync env (cssPathOf env args) = true ->
            readFileSync env (resolve env given) = inr markdownContent ->
            readFileSync env (cssPathOf env args) = inr cssContent ->
            browser (main env argv w)
            = fst (run (convert (lexer env markdownContent) cssContent
                          (outputPathOf env args given)) w))
    by exact main_converts.
  revert H Hc. main_ways env argv w; intros H Hc; try (exfalso; now apply H).
  - exists args, given, markdownContent, cssContent.
    repeat split; try assumption. now apply Hc.
  - exists args, given, markdownContent, cssContent.
    repeat split; try assumption. now apply Hc.
Qed.

Lemma successLine_head (outputPath : jsstring) :
  successLine outputPath
  = 10%N :: 9989%N :: js " PDF generated successfully: " ++ outputPath.
Proof. reflexivity. Qed.

(** The ways in which [main] ends, by what it printed and called. *)
Lemma main_ended :
  (ended (main env argv w) = Exit 0 <-> parseArgs argv = Help)
  /\ (parseArgs argv = Help ->
      console (main env argv w) = [Log helpText] /\ browser (main env argv w) = [])
  /\ (ended (main env argv w) = Resolved
      \/ ended (main env argv w) = Exit 0 \/ ended (main env argv w) = Exit 1)
  /\ (ended (main env argv w) = Exit 1 ->
      exists printed l,
        console (main env argv w) = printed ++ [l] /\ onStderr l = true)
  /\ (ended (main env argv w) = Resolved <->
      exists outputPath, In (Log (successLine outputPath)) (console (main env argv w)))
  /\ (ended (main env argv w) = Resolved ->
      exists printed before outputPath,
        console (main env argv w) = printed ++ [Log (successLine outputPath)]
        /\ forallb (fun l => negb (onStderr l)) printed = true
        /\ browser (main env argv w)
           = before ++ [Pdf (exportOptions outputPath); Close]).
Proof.
  main_ways env argv w.
  all: split; [split; intros H; (discriminate H || reflexivity)|].
  all: split; [intros H; try discriminate H; split; reflexivity|].
  all: split; [auto|].
  all: split;
    [intros H; try discriminate H;
     first [ match goal with
             | |- context [?a ++ [FatalError ?e]] => exists a, (FatalError e)
             end
           | match goal with
             | |- context [[Error ?a; Error ?b]] => exists [Error a], (Error b)
             end
           | match goal with
             | |- context [[Error ?a]] => exists [], (Error a)
             end ];
     split; reflexivity|].
  all: try (destruct (0 <? length (mermaidSources (lexer env markdownContent)))
              eqn:Eh).
  all: split;
    [split;
     [intros H; try discriminate H
     |intros [out H]; try reflexivity; exfalso;
      rewrite successLine_head in H; cbn [In app] in H;
      repeat (destruct H as [H | H]; [discriminate H|]); exact H]|].
  all: try (intros H; discriminate H).
  all: try (eexists; apply in_or_app; right; now left).
  all: intros _;
    match type of Erun with
    | run (generatePdf ?h ?o ?b) w = _ =>
        destruct (@generatePdf_success h o b w p) as [-> Ht];
          [rewrite Erun; reflexivity|]; rewrite Erun in Ht; cbn [fst] in Ht
    end;
    eexists _, _, _; split; [reflexivity|]; split; [reflexivity|];
    rewrite Ht, app_assoc; reflexivity.
Qed.

(** X20. How [main] ends.  The process ends with status 0 or 1.  The status
    is 0 exactly when the arguments asked for the help text or the run
    printed the line that reports success: a run that resolves ends with
    status 0 as well.  [process.exit(0)] itself is called only for the help
    text, which is then all that is printed, and the browser is not started.
    A run with status 1 called [process.exit(1)] and wrote its last line with
    [console.error].  A run resolves exactly when it printed the success
    line; it then wrote nothing with [console.error], and the last two calls
    on the browser were the export to the path that the line names and the
    close. *)
Theorem main_ending :
  let m := main env argv w in
  (exitStatus (ended m) = 0%N \/ exitStatus (ended m) = 1%N)
  /\ (exitStatus (ended m) = 0%N <->
      parseArgs argv = Help
      \/ exists outputPath, In (Log (successLine outputPath)) (console m))
  /\ (ended m = Exit 0 <-> parseArgs argv = Help)
  /\ (parseArgs argv = Help -> console m = [Log helpText] /\ browser m = [])
  /\ (exitStatus (ended m) = 1%N ->
      ended m = Exit 1
      /\ exists printed l, console m = printed ++ [l] /\ onStderr l = true)
  /\ (ended m = Resolved <->
      exists outputPath, In (Log (successLine outputPath)) (console m))
  /\ (ended m = Resolved ->
      exists printed before outputPath,
        console m = printed ++ [Log (successLine outputPath)]
        /\ forallb (fun l => negb (onStderr l)) printed = true
        /\ browser m = before ++ [Pdf (exportOptions outputPath); Close]).
Proof.
  cbv zeta. destruct main_ended as (H0 & Hh & H3 & H1 & Hr & Hl).
  split; [|split; [|split; [exact H0|split; [exact Hh|split;
    [|split; [exact Hr | exact Hl]]]]]].
  - destruct H3 as [E | [E | E]]; rewrite E; cbn; auto.
  - split.
    + intros H. destruct H3 as [E | [E | E]].
      * right. now apply Hr.
      * left. now apply H0.
      * rewrite E in H. discriminate H.
    + intros [Hp | Hs].
      * apply H0 in Hp. now rewrite Hp.
      * apply Hr in Hs. now rewrite Hs.
  - intros H. destruct H3 as [E | [E | E]]; rewrite E in H; try discriminate H.
    split; [exact E | now apply H1].
Qed.

(** X21. Where the PDF goes.  When [main] asks the browser for an export,
    the path of the export is the resolved [--output] argument, or without
    one the path of the input with [.md] replaced, and it is the path that
    the [Output:] line printed.  Without [--output], an input whose path
    does not end in [.md] is the target of the export itself: the PDF is
    written over the input file. *)
Theorem main_output_path (options : pdfOptions) :
  In (Pdf options) (browser (main env argv w)) ->
  exists args given,
    parseArgs argv = Parsed args /\ input args = Some given
    /\ path options = outputPathOf env args given
    /\ In (Log (outputLine (path options))) (console (main env argv w))
    /\ (output args = None ->
        (forall stem ext, resolve env given = stem ++ ext -> isDotMd ext = false) ->
        path options = resolve env given).
Proof.
  main_ways env argv w; intros H; try (now destruct H).
  all: match type of Erun with
       | run (generatePdf ?h ?o ?b) w = _ =>
           pose proof (@generatePdf_trace_pdf h o b w options) as Ho;
             rewrite Erun in Ho; specialize (Ho H); subst options
       end.
  all: exists args, given; cbn [path exportOptions].
  all: split; [reflexivity|]; split; [exact Ei|]; split; [reflexivity|].
  all: split; [cbn [app In]; right; left; reflexivity|].
  all: intros Hn Hno; unfold outputPathOf; rewrite Hn;
    now apply replaceMdExtension_other.
Qed.

(** X22. The line that announces diagrams.  It is printed exactly when the
    arguments name an input, the input and the style sheet exist and were
    read, and the tokens of the input hold a [mermaid] fence; and the
    browser is asked to wait for diagrams only in runs that printed it. *)
Theorem main_detected_line :
  (In (Log detectedLine) (console (main env argv w)) <->
   exists args given markdownContent cssContent,
     parseArgs argv = Parsed args /\ input args = Some given
     /\ existsSync env (resolve env given) = true
     /\ existsSync env (cssPathOf env args) = true
     /\ readFileSync env (resolve env given) = inr markdownContent
     /\ readFileSync env (cssPathOf env args) = inr cssContent
     /\ mermaidSources (lexer env markdownContent) <> [])
  /\ (forall timeout,
        In (WaitForFunction timeout) (browser (main env argv w)) ->
        In (Log detectedLine) (console (main env argv w))).
Proof.
  main_ways env argv w.
  all: split;
    [split;
     [|intros (a & g & md & cs & Ha & Hg & H1 & H2 & H3 & H4 & Hne);
       try discriminate Ha; injection Ha as <-; try congruence;
       assert (md = markdownContent) by congruence; subst md;
       (destruct (mermaidSources (lexer env markdownContent)); [easy|]);
       cbn [length Nat.ltb Nat.leb app In]; do 5 right; left; reflexivity]
    |intros timeout H; try (now destruct H)].
  all: try (destruct (0 <? length (mermaidSources (lexer env markdownContent)))
              eqn:Eh).
  all: try (intros H; exfalso; cbn [app In] in H;
            repeat (destruct H as [H | H]; [discriminate H|]); exact H).
  all: try (intros _; exists args, given, markdownContent, cssContent;
            repeat split; try assumption;
            intros Hn; rewrite Hn in Eh; discriminate Eh).
  all: match type of Erun with
       | run (generatePdf ?h ?o ?b) w = _ =>
           pose proof (@generatePdf_trace_wait h o b w timeout) as Hw;
             rewrite Erun in Hw; specialize (Hw H)
       end.
  all: try congruence.
  all: cbn [app In]; do 5 right; left; reflexivity.
Qed.

End Main.

(** In the directory of [notesAndStyle], with a browser that resolves every
    call. *)
Lemma main_checks_before_browser_witness :
  browser (main (L := reference) notesAndStyle notesArgv cooperative) <> []
  /\ exists args given markdownContent cssContent,
       parseArgs notesArgv = Parsed args /\ input args = Some given
       /\ readFileSync notesAndStyle (resolve notesAndStyle given)
          = inr markdownContent
       /\ readFileSync notesAndStyle (cssPathOf notesAndStyle args) = inr cssContent.
Proof.
  assert (H : browser (main (L := reference) notesAndStyle notesArgv cooperative)
              <> []) by (vm_compute; discriminate).
  split; [exact H|].
  destruct (main_checks_before_browser (L := reference) notesAndStyle notesArgv
              cooperative H)
    as (args & given & md & cs & Ha & Hg & _ & _ & Hm & Hc & _).
  exists args, given, md, cs. repeat split; assumption.
Defined.

(** The command line [--help], and the conversion of [notes.md]. *)
Lemma main_ending_witness :
  parseArgs [js "--help"] = Help
  /\ ended (main (L := reference) notesAndStyle [js "--help"] cooperative) = Exit 0
  /\ ended (main (L := reference) notesAndStyle notesArgv cooperative) = Resolved
  /\ exitStatus (ended (main (L := reference) notesAndStyle notesArgv cooperative))
     = 0%N.
Proof.
  split; [reflexivity|]. split.
  - exact (proj2 (proj1 (proj2 (proj2
             (main_ending (L := reference) notesAndStyle [js "--help"] cooperative))))
             eq_refl).
  - assert (H : exists outputPath,
                In (Log (successLine outputPath))
                   (console (main (L := reference) notesAndStyle notesArgv
                               cooperative))).
    { exists (js "/work/notes.pdf").
      apply (@nth_error_In _ _ 7). vm_compute. reflexivity. }
    split.
    + exact (proj2 (proj1 (proj2 (proj2 (proj2 (proj2 (proj2
               (main_ending (L := reference) notesAndStyle notesArgv
                  cooperative)))))))
               H).
    + exact (proj2 (proj1 (proj2
               (main_ending (L := reference) notesAndStyle notesArgv cooperative)))
               (or_intror H)).
Defined.

(** The input [notes.txt] without [--output]: the export goes to
    [/work/notes.txt]. *)
Lemma main_output_path_witness :
  In (Pdf (exportOptions (js "/work/notes.txt")))
     (browser (main (L := reference) notesAndStyle textArgv cooperative))
  /\ exists args given,
       parseArgs textArgv = Parsed args /\ input args = Some given
       /\ output args = None
       /\ resolve notesAndStyle given = js "/work/notes.txt"
       /\ js "/work/notes.txt" = outputPathOf notesAndStyle args given.
Proof.
  assert (H : In (Pdf (exportOptions (js "/work/notes.txt")))
                (browser (main (L := reference) notesAndStyle textArgv cooperative)))
    by (apply (@nth_error_In _ _ 5); vm_compute; reflexivity).
  split; [exact H|].
  destruct (main_output_path (L := reference) notesAndStyle textArgv cooperative _ H)
    as (args & given & Ha & Hg & Hp & _ & _).
  exists args, given. split; [exact Ha|]. split; [exact Hg|].
  vm_compute in Ha. injection Ha as <-. injection Hg as <-.
  split; [reflexivity|]. split; [reflexivity|]. exact Hp.
Defined.

(** The conversion of [notes.md], which has two diagram fences. *)
Lemma main_detected_line_witness :
  In (WaitForFunction 30000)
     (browser (main (L := reference) notesAndStyle notesArgv cooperative))
  /\ In (Log detectedLine)
        (console (main (L := reference) notesAndStyle notesArgv cooperative)).
Proof.
  assert (H : In (WaitForFunction 30000)
                (browser (main (L := reference) notesAndStyle notesArgv cooperative)))
    by (apply (@nth_error_In _ _ 3); vm_compute; reflexivity).
  split; [exact H|].
  exact (proj2 (main_detected_line (L := reference) notesAndStyle notesArgv
                  cooperative) _ H).
Defined.
